(** * jedi/evaluate/dynamic.py: dynamic parameter search and flow checks

    A shallow embedding of the four operations of [dynamic.py]:
    [_scan_statement], [get_directory_modules_for_name], [search_params]
    and [check_flow_information] (with [_check_isinstance_type]).

    The parser's syntax tree ([jedi.parser.representation]), the evaluator,
    the parser cache and the file system are collaborators of the module:
    the tree is modelled by the fields the module reads, the others are
    records of functions passed as arguments. *)

From stdpp Require Import base option list sets gmap strings sorting.
From Stdlib Require Import Ascii String.

Local Open Scope string_scope.
Local Open Scope list_scope.

(** ** The syntax tree, as [dynamic.py] reads it *)

Module Syntax.

(** A source position, [(line, column)]; Python compares tuples
    lexicographically. *)
Definition Pos : Type := nat * nat.

Definition pos_gt (a b : Pos) : bool :=
  (b.1 <? a.1)%nat || ((a.1 =? b.1)%nat && (b.2 <? a.2)%nat).

(** The [name] attribute of a call: a [pr.Name] with its dotted [names], or
    something that is not a [pr.Name] (the scanner tests
    [isinstance(n, pr.Name)]). *)
Inductive CallName :=
  | Name (names : list string)
  | NotAName (text : string).

(** [pr.Array.type] *)
Inductive ArrayType := NOARRAY | TUPLE | LIST | DICT | SET.

#[local] Unset Elimination Schemes.

(** Statements, the elements of their expression lists, container literals
    and calls.  A call is one link of a chain: [name], the bracket
    [execution] attached to it, and the [next] link.  An array is read
    through [items()] (the key/value pairs of a dict literal) and through
    iteration and [.values] (its value statements). *)
Inductive Statement :=
  | Stmt (start_pos : Pos) (expression_list : list Element)
         (assignment_details : list (list Element * string))
with Element :=
  | EArray (a : Array)
  | ECall (c : Call)
  | EElement (text : string)   (* another pr.StatementElement, e.g. a literal *)
  | EToken (text : string)     (* an operator token: no pr.StatementElement *)
with Array :=
  | Arr (type : ArrayType) (items : list (Statement * Statement))
        (values : list Statement)
with Call :=
  | MkCall (start_pos : Pos) (name : CallName) (execution : option Array)
           (next : option Call).

#[local] Set Elimination Schemes.

Definition stmt_start_pos (s : Statement) : Pos :=
  match s with Stmt p _ _ => p end.
Definition expression_list (s : Statement) : list Element :=
  match s with Stmt _ el _ => el end.
Definition assignment_details (s : Statement) : list (list Element * string) :=
  match s with Stmt _ _ ad => ad end.

Definition arr_type (a : Array) : ArrayType := match a with Arr t _ _ => t end.
Definition arr_items (a : Array) : list (Statement * Statement) :=
  match a with Arr _ kv _ => kv end.
Definition arr_values (a : Array) : list Statement :=
  match a with Arr _ _ vs => vs end.

Definition call_start_pos (c : Call) : Pos := match c with MkCall p _ _ _ => p end.
Definition call_name (c : Call) : CallName := match c with MkCall _ n _ _ => n end.
Definition execution (c : Call) : option Array := match c with MkCall _ _ e _ => e end.
Definition next (c : Call) : option Call := match c with MkCall _ _ _ n => n end.

Definition is_dict (t : ArrayType) : bool :=
  match t with DICT => true | _ => false end.

(** The links of a chain, following [next], the head first. *)
Fixpoint chain (c : Call) : list Call :=
  match c with
  | MkCall _ _ _ nx => c :: match nx with Some c' => chain c' | None => [] end
  end.

(** Structural induction over the four mutually defined types. *)
Section TreeInd.
Variables (P : Statement -> Prop) (Q : Element -> Prop)
          (R : Array -> Prop) (S : Call -> Prop).
Hypothesis HStmt : forall p el ad,
  Forall Q el -> Forall (fun d => Forall Q d.1) ad -> P (Stmt p el ad).
Hypothesis HEArray : forall a, R a -> Q (EArray a).
Hypothesis HECall : forall c, S c -> Q (ECall c).
Hypothesis HEElement : forall t, Q (EElement t).
Hypothesis HEToken : forall t, Q (EToken t).
Hypothesis HArr : forall t kv vs,
  Forall (fun d => P d.1 /\ P d.2) kv -> Forall P vs -> R (Arr t kv vs).
Hypothesis HCall : forall p n ex nx,
  (forall a, ex = Some a -> R a) -> (forall c, nx = Some c -> S c) ->
  S (MkCall p n ex nx).

Fixpoint Statement_ind' (s : Statement) : P s :=
  match s with
  | Stmt p el ad =>
      HStmt p el ad
        ((fix go (l : list Element) : Forall Q l :=
            match l with
            | [] => @List.Forall_nil _ _
            | e :: l' => @List.Forall_cons _ Q e l' (Element_ind' e) (go l')
            end) el)
        ((fix god (l : list (list Element * string))
            : Forall (fun d => Forall Q d.1) l :=
            match l with
            | [] => @List.Forall_nil _ _
            | d :: l' =>
                @List.Forall_cons _ (fun d => Forall Q d.1) d l'
                  ((fix go (l : list Element) : Forall Q l :=
                      match l with
                      | [] => @List.Forall_nil _ _
                      | e :: l' => @List.Forall_cons _ Q e l' (Element_ind' e) (go l')
                      end) d.1)
                  (god l')
            end) ad)
  end
with Element_ind' (e : Element) : Q e :=
  match e with
  | EArray a => HEArray a (Array_ind' a)
  | ECall c => HECall c (Call_ind' c)
  | EElement t => HEElement t
  | EToken t => HEToken t
  end
with Array_ind' (a : Array) : R a :=
  match a with
  | Arr t kv vs =>
      HArr t kv vs
        ((fix go (l : list (Statement * Statement))
            : Forall (fun d => P d.1 /\ P d.2) l :=
            match l with
            | [] => @List.Forall_nil _ _
            | d :: l' =>
                @List.Forall_cons _ (fun d => P d.1 /\ P d.2) d l'
                  (conj (Statement_ind' d.1) (Statement_ind' d.2)) (go l')
            end) kv)
        ((fix go (l : list Statement) : Forall P l :=
            match l with
            | [] => @List.Forall_nil _ _
            | s :: l' => @List.Forall_cons _ P s l' (Statement_ind' s) (go l')
            end) vs)
  end
with Call_ind' (c : Call) : S c :=
  match c with
  | MkCall p n ex nx =>
      HCall p n ex nx
        (fun a => match ex as o return o = Some a -> R a with
                  | Some a' => fun H =>
                      eq_ind a' R (Array_ind' a') a (Some_inj a' a H)
                  | None => fun H => False_ind _ (None_ne_Some a H)
                  end)
        (fun c' => match nx as o return o = Some c' -> S c' with
                   | Some c'' => fun H =>
                       eq_ind c'' S (Call_ind' c'') c' (Some_inj c'' c' H)
                   | None => fun H => False_ind _ (None_ne_Some c' H)
                   end)
  end.

Lemma tree_ind :
  (forall s, P s) /\ (forall e, Q e) /\ (forall a, R a) /\ (forall c, S c).
Proof.
  repeat split; [apply Statement_ind' | apply Element_ind'
                | apply Array_ind' | apply Call_ind'].
Qed.
End TreeInd.

(** Induction along [next] alone. *)
Lemma chain_ind (S : Call -> Prop) :
  (forall p n ex nx, (forall c, nx = Some c -> S c) -> S (MkCall p n ex nx)) ->
  forall c, S c.
Proof.
  intros H.
  apply (Call_ind' (fun _ => True) (fun _ => True) (fun _ => True) S); auto.
Qed.

End Syntax.

(** ** Call-site scanner: [_scan_statement] *)

Module Scanner.
Import Syntax.

(** [isinstance(n, pr.Name) and search_name in n.names] *)
Definition name_matches (search_name : string) (n : CallName) : bool :=
  match n with
  | Name names => bool_decide (search_name ∈ names)
  | NotAName _ => false
  end.

(** The list [check] that the loop of [_scan_statement] walks: a copy of the
    expression list, extended by the assignment targets on request. *)
Definition check (stmt : Statement) (with_details : bool) : list Element :=
  expression_list stmt
  ++ (if with_details then flat_map fst (assignment_details stmt) else []).

(** [_scan_statement] with its local [scan_array] and the [while] loop over
    the links of a call ([scan_chain c s_new]: [c] is the element of [check]
    being visited, [s_new] the current link).  Every nested call passes the
    default [assignment_details=False]. *)
Fixpoint _scan_statement (stmt : Statement) (search_name : string)
    (with_details : bool) {struct stmt} : list Call :=
  match stmt with
  | Stmt _ el ad =>
      flat_map (fun c => scan_element c search_name) el
      ++ (if with_details
          then flat_map (fun d => flat_map (fun c => scan_element c search_name) d.1) ad
          else [])
  end
with scan_element (c : Element) (search_name : string) {struct c} : list Call :=
  match c with
  | EArray a => scan_array a search_name
  | ECall c0 => scan_chain c0 c0 search_name
  | EElement _ | EToken _ => []
  end
with scan_array (arr : Array) (search_name : string) {struct arr} : list Call :=
  match arr with
  | Arr t kv vs =>
      if is_dict t
      then flat_map (fun d => _scan_statement d.1 search_name false
                              ++ _scan_statement d.2 search_name false) kv
      else flat_map (fun s => _scan_statement s search_name false) vs
  end
with scan_chain (c s_new : Call) (search_name : string) {struct s_new} : list Call :=
  match s_new with
  | MkCall _ n ex nx =>
      (if name_matches search_name n then [c] else [])
      ++ match ex with Some a => scan_array a search_name | None => [] end
      ++ match nx with Some s' => scan_chain c s' search_name | None => [] end
  end.

(** Some link of the chain headed by [c] carries [search_name] among the
    parts of its name. *)
Definition mentions (search_name : string) (c : Call) : Prop :=
  exists l, l ∈ chain c /\ name_matches search_name (call_name l) = true.

(** [visited stmt flag c]: the call [c] is an element that the scanner
    visits as the head of a chain: an element of [check], or, recursively,
    of a statement inside a visited container literal or inside the
    execution brackets of a link of a visited chain. *)
Inductive visited : Statement -> bool -> Call -> Prop :=
  | visited_check stmt flag e h :
      e ∈ check stmt flag -> visited_elem e h -> visited stmt flag h
with visited_elem : Element -> Call -> Prop :=
  | visited_head c : visited_elem (ECall c) c
  | visited_argument c l a h :
      l ∈ chain c -> execution l = Some a -> visited_array a h ->
      visited_elem (ECall c) h
  | visited_literal a h : visited_array a h -> visited_elem (EArray a) h
with visited_array : Array -> Call -> Prop :=
  | visited_key a d h :
      arr_type a = DICT -> d ∈ arr_items a -> visited d.1 false h ->
      visited_array a h
  | visited_dict_value a d h :
      arr_type a = DICT -> d ∈ arr_items a -> visited d.2 false h ->
      visited_array a h
  | visited_value a s h :
      arr_type a <> DICT -> s ∈ arr_values a -> visited s false h ->
      visited_array a h.

(** The statement [foo().bar()]: one chain of two links. *)
Definition bar_link : Call := MkCall (1, 6) (Name ["bar"]) (Some (Arr NOARRAY [] [])) None.
Definition foo_bar : Call :=
  MkCall (1, 0) (Name ["foo"]) (Some (Arr NOARRAY [] [])) (Some bar_link).
Definition stmt_foo_bar : Statement := Stmt (1, 0) [ECall foo_bar] [].

(** The statement [g(foo(1), [foo])]: calls nested in arguments and in a
    list literal. *)
Definition lit1 : Statement := Stmt (1, 6) [EElement "1"] [].
Definition foo_1 : Call := MkCall (1, 2) (Name ["foo"]) (Some (Arr NOARRAY [] [lit1])) None.
Definition foo_ref : Call := MkCall (1, 11) (Name ["foo"]) None None.
Definition g_call : Call :=
  MkCall (1, 0) (Name ["g"])
    (Some (Arr NOARRAY []
       [Stmt (1, 2) [ECall foo_1] [];
        Stmt (1, 10) [EArray (Arr LIST [] [Stmt (1, 11) [ECall foo_ref] []])] []]))
    None.
Definition stmt_nested : Statement := Stmt (1, 0) [ECall g_call] [].

Example scan_nested : _scan_statement stmt_nested "foo" false = [foo_1; foo_ref].
Proof. reflexivity. Qed.

Example scan_absent : _scan_statement stmt_nested "baz" false = [].
Proof. reflexivity. Qed.

Example scan_chain_head : _scan_statement stmt_foo_bar "bar" false = [foo_bar].
Proof. reflexivity. Qed.

Lemma scan_statement_check stmt search_name flag :
  _scan_statement stmt search_name flag
  = flat_map (fun c => scan_element c search_name) (check stmt flag).
Proof.
  destruct stmt as [p el ad]; unfold check; simpl.
  rewrite flat_map_app. f_equal. destruct flag; [|reflexivity].
  induction ad as [|d ad IH]; simpl; [reflexivity|].
  rewrite flat_map_app. by rewrite IH.
Qed.

Lemma chain_head c : c ∈ chain c.
Proof. destruct c; simpl; left. Qed.

Lemma chain_next c c' l : next c = Some c' -> l ∈ chain c' -> l ∈ chain c.
Proof. destruct c; simpl; intros ->; right; done. Qed.

Lemma chain_inv c l :
  l ∈ chain c -> l = c \/ exists c', next c = Some c' /\ l ∈ chain c'.
Proof.
  destruct c as [p n ex [c'|]]; simpl; intros H; inv H; eauto.
  match goal with H : _ ∈ [] |- _ => inv H end.
Qed.

(** What one walk over the links from [s_new] on contributes. *)
Lemma scan_chain_spec search_name c :
  forall s_new h,
    (forall l a, l ∈ chain s_new -> execution l = Some a ->
       (h ∈ scan_array a search_name <-> visited_array a h /\ mentions search_name h)) ->
    h ∈ scan_chain c s_new search_name <->
      (h = c /\ exists l, l ∈ chain s_new /\ name_matches search_name (call_name l) = true)
      \/ (exists l a, l ∈ chain s_new /\ execution l = Some a
            /\ visited_array a h /\ mentions search_name h).
Proof.
  intros s_new; induction s_new as [p n ex nx IH] using chain_ind.
  intros h Hex. simpl scan_chain.
  rewrite !elem_of_app. split.
  - intros [Hm | [He | Hn]].
    + destruct (name_matches search_name n) eqn:E; [|inv Hm].
      apply list_elem_of_singleton in Hm as ->. left. split; [done|].
      eexists; split; [apply chain_head | done].
    + destruct ex as [a|]; [|inv He].
      apply (Hex (MkCall p n (Some a) nx) a (chain_head _) eq_refl) in He.
      right. exists (MkCall p n (Some a) nx), a. split; [apply chain_head|done].
    + destruct nx as [s'|]; [|inv Hn].
      apply (IH s' eq_refl) in Hn.
      * destruct Hn as [[-> (l & Hl & Hm)] | (l & a & Hl & He & Hv)].
        -- left. split; [done|]. exists l. split; [|done].
           eapply chain_next; [reflexivity | done].
        -- right. exists l, a. split; [|done].
           eapply chain_next; [reflexivity | done].
      * intros l a Hl. apply Hex. eapply chain_next; [reflexivity | done].
  - intros [[-> (l & Hl & Hm)] | (l & a & Hl & He & Hv)].
    + apply chain_inv in Hl as [-> | (c' & Hc' & Hl)].
      * left. simpl in Hm. rewrite Hm. left.
      * simpl in Hc'. subst nx. right; right. apply (IH c' eq_refl).
        -- intros l' a' Hl'. apply Hex. eapply chain_next; [reflexivity | done].
        -- left. eauto.
    + apply chain_inv in Hl as [-> | (c' & Hc' & Hl)].
      * simpl in He. subst ex. right; left. by apply (Hex _ a (chain_head _) eq_refl).
      * simpl in Hc'. subst nx. right; right. apply (IH c' eq_refl).
        -- intros l' a' Hl'. apply Hex. eapply chain_next; [reflexivity | done].
        -- right. eauto 10.
Qed.

Lemma check_elements (Q : Element -> Prop) p el ad flag :
  Forall Q el -> Forall (fun d => Forall Q d.1) ad ->
  Forall Q (check (Stmt p el ad) flag).
Proof.
  intros Hel Had. unfold check; simpl. apply Forall_app; split; [done|].
  destruct flag; [|constructor].
  induction Had as [|d ad Hd _ IH]; simpl; [constructor|].
  apply Forall_app; split; done.
Qed.

(** The elements of the result are the visited heads that mention the name:
    the scanner's four functions, proved together over the tree. *)
Lemma scan_spec search_name :
  (forall stmt flag h,
     h ∈ _scan_statement stmt search_name flag
     <-> visited stmt flag h /\ mentions search_name h)
  /\ (forall e h,
     h ∈ scan_element e search_name <-> visited_elem e h /\ mentions search_name h)
  /\ (forall a h,
     h ∈ scan_array a search_name <-> visited_array a h /\ mentions search_name h)
  /\ (forall c l a h, l ∈ chain c -> execution l = Some a ->
     (h ∈ scan_array a search_name <-> visited_array a h /\ mentions search_name h)).
Proof.
  pose proof (tree_ind
    (fun stmt => forall flag h, h ∈ _scan_statement stmt search_name flag
       <-> visited stmt flag h /\ mentions search_name h)
    (fun e => forall h, h ∈ scan_element e search_name
       <-> visited_elem e h /\ mentions search_name h)
    (fun a => forall h, h ∈ scan_array a search_name
       <-> visited_array a h /\ mentions search_name h)
    (fun c => forall l a h, l ∈ chain c -> execution l = Some a ->
       (h ∈ scan_array a search_name
        <-> visited_array a h /\ mentions search_name h))) as HI.
  apply HI; clear HI.
  - (* a statement *)
    intros p el ad Hel Had flag h.
    pose proof (check_elements _ p el ad flag Hel Had) as HQ.
    rewrite Forall_forall in HQ.
    rewrite scan_statement_check, list_elem_of_In, in_flat_map. split.
    + intros (e & He & Hh). apply list_elem_of_In in He, Hh.
      apply HQ in Hh as [Hv Hm]; [|done]. split; [|done]. by econstructor.
    + intros [Hv Hm]. inv Hv. exists e. split; [by apply list_elem_of_In|].
      apply list_elem_of_In. apply HQ; done.
  - (* a container literal as an element *)
    intros a Ha h. simpl. rewrite Ha. split.
    + intros [Hv Hm]. split; [by constructor | done].
    + intros [Hv Hm]. inv Hv. done.
  - (* a call as an element *)
    intros c Hc h. simpl. rewrite (scan_chain_spec search_name c c h (fun l a => Hc l a h)).
    split.
    + intros [[-> Hm] | (l & a & Hl & He & Hv & Hm)].
      * split; [constructor | exact Hm].
      * split; [by econstructor | done].
    + intros [Hv Hm]. inv Hv; [left; done | right; eauto 10].
  - intros t h; simpl; split; [intros H; inv H | intros [H _]; inv H].
  - intros t h; simpl; split; [intros H; inv H | intros [H _]; inv H].
  - (* a container literal *)
    intros t kv vs Hkv Hvs h. simpl scan_array.
    rewrite Forall_forall in Hkv. rewrite Forall_forall in Hvs.
    destruct (is_dict t) eqn:Et.
    + assert (t = DICT) as -> by (by destruct t).
      rewrite list_elem_of_In, in_flat_map. split.
      * intros (d & Hd & Hh). apply list_elem_of_In in Hd.
        apply list_elem_of_In, elem_of_app in Hh.
        destruct (Hkv d Hd) as [H1 H2].
        destruct Hh as [Hh | Hh]; [apply H1 in Hh | apply H2 in Hh];
          destruct Hh as [Hv Hm]; (split; [|done]).
        -- by eapply visited_key.
        -- by eapply visited_dict_value.
      * intros [Hv Hm].
        inversion Hv as [a' d h' Ht Hd Hvd | a' d h' Ht Hd Hvd | a' s h' Ht Hs Hvs'];
          simplify_eq/=.
        -- exists d. split; [by apply list_elem_of_In|].
           apply list_elem_of_In, elem_of_app. left. by apply (Hkv d Hd).
        -- exists d. split; [by apply list_elem_of_In|].
           apply list_elem_of_In, elem_of_app. right. by apply (Hkv d Hd).
    + rewrite list_elem_of_In, in_flat_map. split.
      * intros (s & Hs & Hh). apply list_elem_of_In in Hs, Hh.
        apply (Hvs s Hs) in Hh as [Hv Hm]. split; [|done].
        eapply visited_value; [|done..]. simpl. by intros ->.
      * intros [Hv Hm].
        inversion Hv as [a' d h' Ht Hd Hvd | a' d h' Ht Hd Hvd | a' s h' Ht Hs Hvs'];
          simplify_eq/=.
        exists s. split; [by apply list_elem_of_In|].
        apply list_elem_of_In, Hvs; done.
  - (* the links of a chain *)
    intros p n ex nx Hex Hnx l a h Hl He.
    apply chain_inv in Hl as [-> | (c' & Hc' & Hl)].
    + simpl in He. by apply Hex.
    + simpl in Hc'. by eapply Hnx.
Qed.

(** C2 as amended: the scanner returns the HEADS of the visited call chains
    in which some link's name parts contain the target name (a call to the
    name that is a later link of a chain is reported through the head of
    its chain, whose own name may differ); exactly these are returned, at
    any nesting depth of container literals and call arguments, and the
    result is empty exactly when no visited chain mentions the name. *)
Theorem scan_statement_returns_chain_heads (stmt : Statement) (search_name : string)
    (flag : bool) :
  (forall h, h ∈ _scan_statement stmt search_name flag
     <-> visited stmt flag h /\ mentions search_name h)
  /\ (_scan_statement stmt search_name flag = []
     <-> forall h, visited stmt flag h -> ~ mentions search_name h).
Proof.
  destruct (scan_spec search_name) as (HS & _).
  split; [apply HS|]. split.
  - intros E h Hv Hm. assert (h ∈ _scan_statement stmt search_name flag) as Hin
      by (apply HS; done).
    rewrite E in Hin. inv Hin.
  - intros Hno. destruct (_scan_statement stmt search_name flag) as [|h l] eqn:E;
      [done|].
    assert (h ∈ _scan_statement stmt search_name flag) as Hin by (rewrite E; left).
    apply HS in Hin as [Hv Hm]. by destruct (Hno h Hv).
Qed.

(** C2 as stated fails: scanning [foo().bar()] for [bar] returns the head of
    the chain, the call whose name is [foo]; the name of the returned call
    differs from the target name, and the link that invokes [bar] is not
    itself in the result. *)
Lemma scan_returns_call_with_other_name :
  _scan_statement stmt_foo_bar "bar" false = [foo_bar]
  /\ call_name foo_bar = Name ["foo"]
  /\ name_matches "bar" (call_name foo_bar) = false
  /\ (bar_link ∉ _scan_statement stmt_foo_bar "bar" false)
  /\ ~ (forall h, h ∈ _scan_statement stmt_foo_bar "bar" false ->
          name_matches "bar" (call_name h) = true).
Proof.
  repeat split.
  - intros H. apply list_elem_of_singleton in H. discriminate H.
  - intros H. specialize (H foo_bar). simpl in H.
    assert (foo_bar ∈ [foo_bar]) as Hin by left. apply H in Hin. discriminate Hin.
Qed.

(** *** Further properties of the scanner *)

Definition link_matches (search_name : string) (l : Call) : bool :=
  name_matches search_name (call_name l).

Lemma scan_chain_links c search_name :
  forall s_new,
    scan_chain c s_new search_name
    = flat_map
        (fun l => (if link_matches search_name l then [c] else [])
                  ++ match execution l with
                     | Some a => scan_array a search_name
                     | None => []
                     end)
        (chain s_new).
Proof.
  intros s_new; induction s_new as [p n ex nx IH] using chain_ind.
  simpl. rewrite <- app_assoc. do 2 f_equal.
  destruct nx as [s'|]; [by apply IH | done].
Qed.

(** X1: the [while] loop over a call is a walk over its links in source
    order: each link contributes the head once when its name matches, then
    the matches found inside its brackets.  A chain without brackets is
    therefore reported once per matching link (the same call may occur
    several times in the result). *)
Theorem scan_call_walks_links (c : Call) (search_name : string) :
  scan_element (ECall c) search_name
  = flat_map
      (fun l => (if link_matches search_name l then [c] else [])
                ++ match execution l with
                   | Some a => scan_array a search_name
                   | None => []
                   end)
      (chain c)
  /\ ((forall l, l ∈ chain c -> execution l = None) ->
      scan_element (ECall c) search_name
      = replicate (List.length (List.filter (link_matches search_name) (chain c))) c).
Proof.
  split; [apply scan_chain_links|].
  intros Hno. simpl. rewrite scan_chain_links.
  induction (chain c) as [|l ls IH]; simpl; [done|].
  rewrite (Hno l) by left. rewrite app_nil_r.
  rewrite IH by (intros l' Hl'; apply Hno; by right).
  destruct (link_matches search_name l); done.
Qed.

Example scan_repeated_name :
  _scan_statement
    (Stmt (1, 0)
       [ECall (MkCall (1, 0) (Name ["foo"]) None
                 (Some (MkCall (1, 4) (Name ["foo"]) None None)))] [])
    "foo" false
  = replicate 2
      (MkCall (1, 0) (Name ["foo"]) None
         (Some (MkCall (1, 4) (Name ["foo"]) None None))).
Proof. reflexivity. Qed.

Lemma scan_call_walks_links_witness :
  scan_element (ECall foo_bar) "bar"
  = flat_map
      (fun l => (if link_matches "bar" l then [foo_bar] else [])
                ++ match execution l with
                   | Some a => scan_array a "bar"
                   | None => []
                   end)
      (chain foo_bar).
Proof. exact (proj1 (scan_call_walks_links foo_bar "bar")). Defined.

End Scanner.

(** ** Python results: a value or a raised exception *)

Module Py.

Inductive Exn :=
  | AssertionError | IndexError | AttributeError | ValueError | KeyError
  | IOError | UnicodeDecodeError | RuntimeError | OSError.

Inductive Res (A : Type) :=
  | Ok (a : A)
  | Raise (e : Exn).
Arguments Ok {A} a.
Arguments Raise {A} e.

#[global] Instance res_ret : MRet Res := fun A a => Ok a.
#[global] Instance res_bind : MBind Res := fun A B f m =>
  match m with Ok a => f a | Raise e => Raise e end.
#[global] Instance res_fmap : FMap Res := fun A B f m =>
  match m with Ok a => Ok (f a) | Raise e => Raise e end.

(** [assert b] *)
Definition assert (b : bool) : Res unit :=
  if b then Ok tt else Raise AssertionError.

(** [l[i]] *)
Definition index {A} (l : list A) (i : nat) : Res A :=
  match l !! i with Some a => Ok a | None => Raise IndexError end.

End Py.

(** ** [jedi.settings], as far as [dynamic.py] reads it *)

Module settings.

Record t := {
  dynamic_params : bool;
  dynamic_params_for_other_modules : bool;
  additional_dynamic_modules : list string;
  dynamic_flow_information : bool;
}.

End settings.

(** ** Flow checks: [check_flow_information] and [_check_isinstance_type] *)

Module Narrowing.
Import Syntax Py.

(** The evaluator, as the flow checks use it: [eval_call], [execute], and
    for a value [c] the test [isinstance(c, iterable.Array)] with
    [c.get_index_types()] ([index_types c = Some ts] for an array).  The
    calls are taken to return: an exception raised inside the evaluator
    (the calls stand after the [try] block) would leave the flow checks
    unchanged, and is not part of this record. *)
Record Evaluator := {
  Value : Type;
  eval_call : Element -> list Value;
  execute : Value -> list Value;
  index_types : Value -> option (list Value);
}.

(** The flow handed to [check_flow_information], by what the function tests
    and reads: [isinstance(flow, (pr.Scope, fast_parser.Module))] and
    [flow.asserts]; [isinstance(flow, pr.Flow)], [flow.command] and
    [flow.inputs]. *)
Record Flow := {
  is_scope : bool;
  asserts : list Statement;
  is_flow : bool;
  command : string;
  inputs : list Statement;
}.

(** [isinstance(e, pr.StatementElement)] *)
Definition is_statement_element (e : Element) : bool :=
  match e with EToken _ => false | _ => true end.

(** [isinstance(e, pr.Call)], as a checked cast. *)
Definition assert_call (e : Element) : Res Call :=
  match e with ECall c => Ok c | _ => Raise AssertionError end.

(** A printed form for names: the parts joined by dots. *)
Definition dotted (n : CallName) : string :=
  match n with
  | Name names => String.concat "." names
  | NotAName text => text
  end.

(** A small evaluator for the examples: a name evaluates to the class of
    that name, a tuple literal to an array of the classes of its elements;
    executing a class gives an instance. *)
Inductive TypeValue :=
  | Class (n : string)
  | Instance (n : string)
  | TupleOf (classes : list string).

Definition class_names (e : Element) : list string :=
  match e with
  | ECall c => [dotted (call_name c)]
  | _ => []
  end.

Definition type_evaluator : Evaluator := {|
  Value := TypeValue;
  eval_call e :=
    match e with
    | ECall c => [Class (dotted (call_name c))]
    | EArray a => [TupleOf (flat_map (fun s => flat_map class_names (expression_list s))
                                     (arr_values a))]
    | _ => []
    end;
  execute v := match v with Class n => [Instance n] | _ => [] end;
  index_types v := match v with TupleOf ns => Some (map Class ns) | _ => None end;
|}.

Definition name_ref (p : Pos) (n : string) : Element :=
  ECall (MkCall p (Name [n]) None None).

(** [isinstance(x, int)], starting at position [p]. *)
Definition isinstance_x_int (p : Pos) : Statement :=
  Stmt p
    [ECall (MkCall p (Name ["isinstance"])
       (Some (Arr NOARRAY []
          [Stmt (p.1, p.2 + 11) [name_ref (p.1, p.2 + 11) "x"] [];
           Stmt (p.1, p.2 + 14) [name_ref (p.1, p.2 + 14) "int"] []]))
       None)]
    [].

(** [isinstance(x, (int, str))] *)
Definition isinstance_x_int_str (p : Pos) : Statement :=
  Stmt p
    [ECall (MkCall p (Name ["isinstance"])
       (Some (Arr NOARRAY []
          [Stmt (p.1, p.2 + 11) [name_ref (p.1, p.2 + 11) "x"] [];
           Stmt (p.1, p.2 + 14)
             [EArray (Arr TUPLE []
                [Stmt (p.1, p.2 + 15) [name_ref (p.1, p.2 + 15) "int"] [];
                 Stmt (p.1, p.2 + 20) [name_ref (p.1, p.2 + 20) "str"] []])]
             []]))
       None)]
    [].

(** [x == 1] *)
Definition x_equals_1 (p : Pos) : Statement :=
  Stmt p [name_ref p "x"; EToken "=="; EElement "1"] [].

Definition enabled : settings.t := {|
  settings.dynamic_params := true;
  settings.dynamic_params_for_other_modules := true;
  settings.additional_dynamic_modules := [];
  settings.dynamic_flow_information := true;
|}.

Definition disabled : settings.t := {|
  settings.dynamic_params := false;
  settings.dynamic_params_for_other_modules := false;
  settings.additional_dynamic_modules := [];
  settings.dynamic_flow_information := false;
|}.

(** [if cond:] with no asserts of its own. *)
Definition if_flow (cond : Statement) : Flow := {|
  is_scope := false; asserts := [];
  is_flow := true; command := "if"; inputs := [cond];
|}.

(** A function or module body with the given asserts. *)
Definition scope_with (asserts : list Statement) : Flow := {|
  is_scope := true; asserts := asserts;
  is_flow := false; command := ""; inputs := [];
|}.

Section Flows.
(** [str(name)], the printed form of a call's name (the parser's
    [__str__]). *)
Variable str : CallName -> string.

(** The body of the [try] block of [_check_isinstance_type]: every [assert],
    index and unpacking in the order of the source; it returns
    [classes[0]]. *)
Definition type_guard (stmt : Statement) (search_name : string) : Res Element :=
  let expression_list := expression_list stmt in
  assert (List.length expression_list =? 1)%nat;;
  call ← index expression_list 0;
  call ← assert_call call;
  assert (bool_decide (str (call_name call) = "isinstance"));;
  (* assert bool(call.execution): there are brackets *)
  execution ← from_option Ok (Raise AssertionError) (execution call);
  let isinst := arr_values execution in
  assert (List.length isinst =? 2)%nat;;
  oc ← match map Syntax.expression_list isinst with
       | [obj; classes] => Ok (obj, classes)
       | _ => Raise ValueError
       end;
  let obj := oc.1 in
  let classes := oc.2 in
  assert (List.length obj =? 1)%nat;;
  assert (List.length classes =? 1)%nat;;
  obj0 ← index obj 0;
  obj0 ← assert_call obj0;
  assert (bool_decide (str (call_name obj0) = search_name));;
  classes0 ← index classes 0;
  assert (is_statement_element classes0);;
  mret classes0.

(** The two loops after the [try] block: every value of [classes[0]], an
    array expanded into its index types, is executed; the results are
    concatenated. *)
Definition narrowed (evaluator : Evaluator) (classes0 : Element)
    : list (Value evaluator) :=
  flat_map
    (fun c =>
       flat_map (execute evaluator)
         (match index_types evaluator c with Some ts => ts | None => [c] end))
    (eval_call evaluator classes0).

Definition _check_isinstance_type (evaluator : Evaluator) (stmt : Statement)
    (search_name : string) : Res (list (Value evaluator)) :=
  match type_guard stmt search_name with
  | Raise AssertionError => Ok []        (* except AssertionError: return [] *)
  | Raise e => Raise e
  | Ok classes0 => Ok (narrowed evaluator classes0)
  end.

(** [bool(result)] for a list. *)
Definition truthy {A} (l : list A) : bool :=
  match l with [] => false | _ => true end.

(** The [for ass in reversed(flow.asserts)] loop, over the reversed list:
    [continue] when there is no position or the assert starts after it,
    [break] on the first non-empty result. *)
Fixpoint assert_loop (evaluator : Evaluator) (search_name : string)
    (pos : option Pos) (reversed_asserts : list Statement)
    : Res (list (Value evaluator)) :=
  match reversed_asserts with
  | [] => Ok []
  | ass :: rest =>
      if match pos with
         | None => true
         | Some pos => pos_gt (stmt_start_pos ass) pos
         end
      then assert_loop evaluator search_name pos rest
      else
        result ← _check_isinstance_type evaluator ass search_name;
        if truthy result then Ok result
        else assert_loop evaluator search_name pos rest
  end.

(** [check_flow_information]: [None] is Python's [None], [Some l] a list. *)
Definition check_flow_information (cfg : settings.t) (evaluator : Evaluator)
    (flow : Flow) (search_name : string) (pos : option Pos)
    : Res (option (list (Value evaluator))) :=
  if negb (settings.dynamic_flow_information cfg) then Ok None
  else
    result ← (if is_scope flow
              then assert_loop evaluator search_name pos (reverse (asserts flow))
              else Ok []);
    result ← (if is_flow flow && negb (truthy result)
              then
                if (bool_decide (command flow ∈ ["if"; "while"]))
                   && (List.length (inputs flow) =? 1)%nat
                then
                  input ← index (inputs flow) 0;
                  _check_isinstance_type evaluator input search_name
                else Ok result
              else Ok result);
    Ok (Some result).

(** The shape of statement that the claim describes: one expression, a call
    printed [isinstance] with brackets holding exactly two argument
    statements; the first argument is one expression, a call printed as the
    searched name; the second is one expression, a statement element. *)
Inductive is_type_guard (search_name : string) : Statement -> Element -> Prop :=
  | type_guard_shape p ad pc n t kv nx p1 po no exo nxo ad1 p2 classes0 ad2 :
      str n = "isinstance" ->
      str no = search_name ->
      is_statement_element classes0 = true ->
      is_type_guard search_name
        (Stmt p
           [ECall (MkCall pc n
              (Some (Arr t kv
                 [Stmt p1 [ECall (MkCall po no exo nxo)] ad1;
                  Stmt p2 [classes0] ad2]))
              nx)]
           ad)
        classes0.

(** What the guard contributes for one statement, as a plain list. *)
Definition guard_types (evaluator : Evaluator) (stmt : Statement)
    (search_name : string) : list (Value evaluator) :=
  match type_guard stmt search_name with
  | Ok classes0 => narrowed evaluator classes0
  | Raise _ => []
  end.

(** The assert loop as the specification words it: an assert "positioned at
    or after the query position" is skipped, only one strictly before it is
    considered. *)
Fixpoint assert_loop_as_specified (evaluator : Evaluator) (search_name : string)
    (pos : option Pos) (reversed_asserts : list Statement)
    : Res (list (Value evaluator)) :=
  match reversed_asserts with
  | [] => Ok []
  | ass :: rest =>
      if match pos with
         | None => true
         | Some pos => negb (pos_gt pos (stmt_start_pos ass))
         end
      then assert_loop_as_specified evaluator search_name pos rest
      else
        result ← _check_isinstance_type evaluator ass search_name;
        if truthy result then Ok result
        else assert_loop_as_specified evaluator search_name pos rest
  end.

(** An assert that the loop does not skip at position [pos]. *)
Definition not_after (pos : Pos) (ass : Statement) : bool :=
  negb (pos_gt (stmt_start_pos ass) pos).

(** Closes a case in which an [assert] of the guard fails: the body raises
    [AssertionError], and the statement has not the shape of a guard. *)
Ltac assertion_fails :=
  right; split; [done | intros ? H; inv H; done || congruence].

Lemma type_guard_outcome stmt search_name :
  (exists classes0, type_guard stmt search_name = Ok classes0
                    /\ is_type_guard search_name stmt classes0)
  \/ (type_guard stmt search_name = Raise AssertionError
      /\ forall classes0, ~ is_type_guard search_name stmt classes0).
Proof.
  destruct stmt as [p el ad].
  unfold type_guard; simpl.
  destruct el as [|e [|e' el]]; [assertion_fails | | assertion_fails].
  destruct e as [a|[pc n ex nx]|t|t]; try assertion_fails.
  simpl. case_bool_decide as Hn; simpl; [|assertion_fails].
  destruct ex as [[t kv vs]|]; simpl; [|assertion_fails].
  destruct vs as [|[p1 obj ad1] [|[p2 classes ad2] [|s3 vs]]]; simpl;
    try assertion_fails.
  destruct obj as [|o [|o' obj]]; simpl; try assertion_fails.
  destruct classes as [|c0 [|c1 classes]]; simpl; try assertion_fails.
  destruct o as [a|[po no exo nxo]|t'|t']; simpl; try assertion_fails.
  case_bool_decide as Ho; simpl; [|assertion_fails].
  destruct (is_statement_element c0) eqn:Hc; simpl; [|assertion_fails].
  left. exists c0. split; [done|]. by constructor.
Qed.

Lemma check_isinstance_type_total evaluator stmt search_name :
  _check_isinstance_type evaluator stmt search_name
  = Ok (guard_types evaluator stmt search_name).
Proof.
  unfold _check_isinstance_type, guard_types.
  destruct (type_guard_outcome stmt search_name) as [(c & -> & _) | [-> _]]; done.
Qed.

Lemma is_type_guard_passes stmt search_name classes0 :
  is_type_guard search_name stmt classes0 ->
  type_guard stmt search_name = Ok classes0.
Proof.
  intros H. destruct (type_guard_outcome stmt search_name)
    as [(c & Hc & Hg) | [_ Hno]]; [|by destruct (Hno classes0)].
  rewrite Hc. f_equal. inv H. inv Hg. done.
Qed.

Lemma truthy_true {A} (l : list A) : truthy l = true <-> l <> [].
Proof. destruct l; simpl; split; congruence. Qed.

Lemma truthy_false {A} (l : list A) : truthy l = false <-> l = [].
Proof. destruct l; simpl; split; congruence. Qed.

Lemma assert_loop_no_position evaluator search_name l :
  assert_loop evaluator search_name None l = Ok [].
Proof. induction l as [|a l IH]; simpl; done. Qed.

Lemma assert_loop_passes_over evaluator search_name pos l1 l2 :
  Forall (fun a => pos_gt (stmt_start_pos a) pos = true
                   \/ guard_types evaluator a search_name = []) l1 ->
  assert_loop evaluator search_name (Some pos) (l1 ++ l2)
  = assert_loop evaluator search_name (Some pos) l2.
Proof.
  induction 1 as [|a l1 Ha _ IH]; simpl; [done|].
  destruct (pos_gt (stmt_start_pos a) pos) eqn:E; [done|].
  destruct Ha as [Ha | Ha]; [congruence|].
  rewrite check_isinstance_type_total, Ha. simpl. done.
Qed.

Lemma assert_loop_filter evaluator search_name pos l :
  assert_loop evaluator search_name (Some pos) l
  = assert_loop evaluator search_name (Some pos) (List.filter (not_after pos) l).
Proof.
  induction l as [|a l IH]; simpl; [done|].
  unfold not_after at 1.
  destruct (pos_gt (stmt_start_pos a) pos) eqn:E; simpl; [done|].
  rewrite E, IH. done.
Qed.

Lemma filter_reverse {A} (f : A -> bool) (l : list A) :
  List.filter f (reverse l) = reverse (List.filter f l).
Proof.
  induction l as [|a l IH]; simpl; [done|].
  rewrite reverse_cons, List.filter_app, IH. simpl.
  destruct (f a); [by rewrite reverse_cons | by rewrite app_nil_r].
Qed.

Lemma assert_loop_total evaluator search_name pos l :
  exists r, assert_loop evaluator search_name pos l = Ok r.
Proof.
  induction l as [|a l [r IH]]; simpl; [eauto|].
  destruct pos as [pos|]; [|eauto].
  destruct (pos_gt _ _); [eauto|].
  rewrite check_isinstance_type_total. simpl.
  destruct (truthy _); eauto.
Qed.

Lemma narrowed_elem evaluator classes0 v :
  v ∈ narrowed evaluator classes0
  <-> exists c typ,
        c ∈ eval_call evaluator classes0
        /\ match index_types evaluator c with
           | Some ts => typ ∈ ts
           | None => typ = c
           end
        /\ v ∈ execute evaluator typ.
Proof.
  unfold narrowed. rewrite list_elem_of_In, in_flat_map. split.
  - intros (c & Hc & Hv). apply in_flat_map in Hv as (typ & Ht & Hv).
    exists c, typ. rewrite !list_elem_of_In. split; [done|]. split; [|done].
    destruct (index_types evaluator c) as [ts|].
    + by apply list_elem_of_In.
    + destruct Ht as [<-|[]]. done.
  - intros (c & typ & Hc & Ht & Hv). exists c.
    split; [by apply list_elem_of_In|]. apply in_flat_map. exists typ.
    split; [|by apply list_elem_of_In].
    destruct (index_types evaluator c) as [ts|].
    + by apply list_elem_of_In.
    + subst typ. by left.
Qed.

(** C3: the type-guard match succeeds exactly on the described shape (one
    expression, a call printed [isinstance] with two argument statements,
    the first a single call printed as the searched name, the second a
    single statement element).  On success the result holds exactly the
    values got by executing a type, where the types are the values of the
    second argument, an array among them replaced by its elements: one
    value that is no array gives its execution, an array of two types the
    executions of both, in order, and two values the executions of both.
    Every other statement gives the empty list through the caught
    AssertionError, never an exception.  The narrowing of an [if]/[while]
    flow with that one condition returns this result, unless the flow is
    also a scope one of whose asserts narrows, which then decides. *)
Theorem check_isinstance_type_guard_shape (evaluator : Evaluator)
    (stmt : Statement) (search_name : string) :
  (forall classes0,
     type_guard stmt search_name = Ok classes0
     <-> is_type_guard search_name stmt classes0)
  /\ ((exists classes0 result,
         is_type_guard search_name stmt classes0
         /\ _check_isinstance_type evaluator stmt search_name = Ok result
         /\ (forall v,
               v ∈ result
               <-> exists c typ,
                     c ∈ eval_call evaluator classes0
                     /\ match index_types evaluator c with
                        | Some ts => typ ∈ ts
                        | None => typ = c
                        end
                     /\ v ∈ execute evaluator typ)
         /\ (forall c,
               eval_call evaluator classes0 = [c] ->
               index_types evaluator c = None ->
               result = execute evaluator c)
         /\ (forall c t1 t2,
               eval_call evaluator classes0 = [c] ->
               index_types evaluator c = Some [t1; t2] ->
               result = execute evaluator t1 ++ execute evaluator t2)
         /\ (forall c1 c2,
               eval_call evaluator classes0 = [c1; c2] ->
               index_types evaluator c1 = None ->
               index_types evaluator c2 = None ->
               result = execute evaluator c1 ++ execute evaluator c2))
      \/ ((forall classes0, ~ is_type_guard search_name stmt classes0)
          /\ type_guard stmt search_name = Raise AssertionError
          /\ _check_isinstance_type evaluator stmt search_name = Ok []))
  /\ (forall cfg flow pos,
        settings.dynamic_flow_information cfg = true ->
        is_flow flow = true ->
        command flow ∈ ["if"; "while"] -> inputs flow = [stmt] ->
        exists result,
          _check_isinstance_type evaluator stmt search_name = Ok result
          /\ ((is_scope flow = false
               \/ assert_loop evaluator search_name pos (reverse (asserts flow))
                  = Ok []) ->
              check_flow_information cfg evaluator flow search_name pos
              = Ok (Some result))
          /\ (forall narrowed_by_assert,
                is_scope flow = true ->
                assert_loop evaluator search_name pos (reverse (asserts flow))
                = Ok narrowed_by_assert ->
                narrowed_by_assert <> [] ->
                check_flow_information cfg evaluator flow search_name pos
                = Ok (Some narrowed_by_assert))).
Proof.
  split; [|split].
  - intros c. split; [|apply is_type_guard_passes].
    intros Hc. destruct (type_guard_outcome stmt search_name)
      as [(c' & Hc' & Hg) | [Hr _]]; congruence.
  - destruct (type_guard_outcome stmt search_name)
      as [(c & Hc & Hg) | [Hr Hno]].
    + left. exists c, (narrowed evaluator c). split; [done|].
      split; [unfold _check_isinstance_type; by rewrite Hc|].
      split; [apply narrowed_elem|].
      unfold narrowed. split; [|split].
      * intros c0 -> Hi. simpl. rewrite Hi. simpl. by rewrite !app_nil_r.
      * intros c0 t1 t2 -> Hi. simpl. rewrite Hi. simpl. by rewrite !app_nil_r.
      * intros c1 c2 -> H1 H2. simpl. rewrite H1, H2. simpl.
        by rewrite !app_nil_r.
    + right. repeat split; [done..|]. unfold _check_isinstance_type. by rewrite Hr.
  - intros cfg flow pos Hon Hf Hc Hi.
    exists (guard_types evaluator stmt search_name).
    split; [apply check_isinstance_type_total|].
    unfold check_flow_information. rewrite Hon, Hf, Hi. simpl.
    rewrite bool_decide_true by done. simpl. split.
    + intros [Hs | Ha].
      * rewrite Hs. simpl. by rewrite check_isinstance_type_total.
      * destruct (is_scope flow); [rewrite Ha|]; simpl;
          by rewrite check_isinstance_type_total.
    + intros r Hs Ha Hne. rewrite Hs, Ha. simpl.
      apply truthy_true in Hne. by rewrite Hne.
Qed.

(** C4 as amended: the assert loop walks the asserts in reverse source
    order and skips exactly those that start after the query position (an
    assert starting at the position itself is considered); the most recent
    considered assert whose guard check gives a non-empty result decides the
    result of [check_flow_information]. *)
Theorem assert_narrowing_most_recent_not_after (cfg : settings.t)
    (evaluator : Evaluator) (flow : Flow) (search_name : string) (pos : Pos)
    (before after : list Statement) (ass : Statement) :
  settings.dynamic_flow_information cfg = true ->
  is_scope flow = true ->
  asserts flow = before ++ ass :: after ->
  pos_gt (stmt_start_pos ass) pos = false ->
  guard_types evaluator ass search_name <> [] ->
  Forall (fun a => pos_gt (stmt_start_pos a) pos = true
                   \/ guard_types evaluator a search_name = []) after ->
  assert_loop evaluator search_name (Some pos) (reverse (asserts flow))
  = assert_loop evaluator search_name (Some pos)
      (reverse (List.filter (not_after pos) (asserts flow)))
  /\ check_flow_information cfg evaluator flow search_name (Some pos)
     = Ok (Some (guard_types evaluator ass search_name)).
Proof.
  intros Hon Hs Ha Hpos Hne Hafter. split.
  - rewrite assert_loop_filter, filter_reverse. done.
  - unfold check_flow_information. rewrite Hon, Hs, Ha. simpl.
    rewrite reverse_app, reverse_cons, <- app_assoc.
    rewrite assert_loop_passes_over by (by apply Forall_reverse).
    simpl. rewrite Hpos, check_isinstance_type_total. simpl.
    apply truthy_true in Hne. rewrite Hne. simpl.
    rewrite Hne, andb_false_r. done.
Qed.

(** C5 as amended: with [dynamic_flow_information] off,
    [check_flow_information] returns Python's [None] at once (no list, not
    an empty sequence), for every flow, name and position. *)
Theorem check_flow_information_disabled_returns_None (cfg : settings.t)
    (evaluator : Evaluator) (flow : Flow) (search_name : string)
    (pos : option Pos) :
  settings.dynamic_flow_information cfg = false ->
  check_flow_information cfg evaluator flow search_name pos = Ok None.
Proof. intros H. unfold check_flow_information. by rewrite H. Qed.

(** C10: without a query position every assert of the scope is skipped, so
    the result is the branch narrowing of a single-condition [if]/[while]
    flow, or empty: a non-empty result can only come from that branch. *)
Theorem no_position_only_branch_narrowing (cfg : settings.t)
    (evaluator : Evaluator) (flow : Flow) (search_name : string) :
  settings.dynamic_flow_information cfg = true ->
  assert_loop evaluator search_name None (reverse (asserts flow)) = Ok []
  /\ check_flow_information cfg evaluator flow search_name None
     = Ok (Some (if is_flow flow && bool_decide (command flow ∈ ["if"; "while"])
                 then match inputs flow with
                      | [cond] => guard_types evaluator cond search_name
                      | _ => []
                      end
                 else []))
  /\ (forall result,
        check_flow_information cfg evaluator flow search_name None
        = Ok (Some result) ->
        result <> [] ->
        is_flow flow = true
        /\ command flow ∈ ["if"; "while"]
        /\ exists cond, inputs flow = [cond]
                        /\ result = guard_types evaluator cond search_name).
Proof.
  intros Hon.
  assert (check_flow_information cfg evaluator flow search_name None
     = Ok (Some (if is_flow flow && bool_decide (command flow ∈ ["if"; "while"])
                 then match inputs flow with
                      | [cond] => guard_types evaluator cond search_name
                      | _ => []
                      end
                 else []))) as Heq.
  { unfold check_flow_information. rewrite Hon. simpl.
    assert ((if is_scope flow
             then assert_loop evaluator search_name None (reverse (asserts flow))
             else Ok []) = Ok []) as ->
      by (destruct (is_scope flow); [apply assert_loop_no_position | done]).
    simpl. rewrite andb_true_r.
    destruct (is_flow flow); simpl; [|done].
    case_bool_decide; simpl; [|done].
    destruct (inputs flow) as [|cond [|c2 l]]; simpl; try done.
    rewrite check_isinstance_type_total. done. }
  split; [apply assert_loop_no_position|]. split; [exact Heq|].
  intros result Hr Hne. rewrite Heq in Hr. injection Hr as Hr.
  destruct (is_flow flow); simpl in Hr; [|congruence].
  case_bool_decide; simpl in Hr; [|congruence].
  destruct (inputs flow) as [|cond [|c2 l]]; try congruence.
  repeat split; try done. by exists cond.
Qed.

End Flows.

Example narrow_isinstance_int :
  check_flow_information dotted enabled type_evaluator
    (if_flow (isinstance_x_int (3, 3))) "x" (Some (4, 4))
  = Ok (Some [Instance "int"]).
Proof. reflexivity. Qed.

Example narrow_isinstance_tuple :
  check_flow_information dotted enabled type_evaluator
    (if_flow (isinstance_x_int_str (3, 3))) "x" (Some (4, 4))
  = Ok (Some [Instance "int"; Instance "str"]).
Proof. reflexivity. Qed.

Example narrow_comparison :
  check_flow_information dotted enabled type_evaluator
    (if_flow (x_equals_1 (3, 3))) "x" (Some (4, 4))
  = Ok (Some []).
Proof. reflexivity. Qed.

Example narrow_other_name :
  check_flow_information dotted enabled type_evaluator
    (if_flow (isinstance_x_int (3, 3))) "y" (Some (4, 4))
  = Ok (Some []).
Proof. reflexivity. Qed.

Lemma check_isinstance_type_guard_shape_witness :
  is_type_guard dotted "x" (isinstance_x_int (3, 3)) (name_ref (3, 17) "int")
  /\ _check_isinstance_type dotted type_evaluator (isinstance_x_int (3, 3)) "x"
     = Ok [Instance "int"]
  /\ check_flow_information dotted enabled type_evaluator
       (if_flow (isinstance_x_int (3, 3))) "x" (Some (4, 4))
     = Ok (Some [Instance "int"]).
Proof.
  destruct (check_isinstance_type_guard_shape dotted type_evaluator
              (isinstance_x_int (3, 3)) "x") as (Hiff & Hres & Hflow).
  split; [apply Hiff; reflexivity|]. split; [reflexivity|].
  destruct (Hflow enabled (if_flow (isinstance_x_int (3, 3))) (Some (4, 4))
              eq_refl eq_refl) as (result & Hr & Hbranch & _);
    [simpl; left | reflexivity |].
  rewrite Hbranch by (left; reflexivity).
  change (_check_isinstance_type dotted type_evaluator (isinstance_x_int (3, 3)) "x")
    with (@Ok (list TypeValue) [Instance "int"]) in Hr.
  injection Hr as <-. reflexivity.
Defined.

(** C4 as stated fails: an assert that starts exactly at the query position
    is not skipped by the code ([ass.start_pos > pos] is false), while the
    loop as specified skips it. *)
Lemma assert_at_position_is_considered :
  check_flow_information dotted enabled type_evaluator
    (scope_with [isinstance_x_int (2, 7)]) "x" (Some (2, 7))
  = Ok (Some [Instance "int"])
  /\ assert_loop_as_specified dotted type_evaluator "x" (Some (2, 7))
       (reverse [isinstance_x_int (2, 7)])
     = Ok []
  /\ assert_loop dotted type_evaluator "x" (Some (2, 7))
       (reverse [isinstance_x_int (2, 7)])
     <> assert_loop_as_specified dotted type_evaluator "x" (Some (2, 7))
          (reverse [isinstance_x_int (2, 7)]).
Proof. repeat split. intros H. discriminate H. Qed.

Lemma assert_narrowing_most_recent_not_after_witness :
  assert_loop dotted type_evaluator "x" (Some (5, 0))
    (reverse [isinstance_x_int_str (1, 7); isinstance_x_int (3, 7);
              x_equals_1 (4, 7); isinstance_x_int_str (8, 7)])
  = assert_loop dotted type_evaluator "x" (Some (5, 0))
      (reverse (List.filter (not_after (5, 0))
         [isinstance_x_int_str (1, 7); isinstance_x_int (3, 7);
          x_equals_1 (4, 7); isinstance_x_int_str (8, 7)]))
  /\ check_flow_information dotted enabled type_evaluator
       (scope_with [isinstance_x_int_str (1, 7); isinstance_x_int (3, 7);
                    x_equals_1 (4, 7); isinstance_x_int_str (8, 7)])
       "x" (Some (5, 0))
     = Ok (Some (guard_types dotted type_evaluator (isinstance_x_int (3, 7)) "x")).
Proof.
  apply (assert_narrowing_most_recent_not_after dotted enabled type_evaluator
           (scope_with [isinstance_x_int_str (1, 7); isinstance_x_int (3, 7);
                        x_equals_1 (4, 7); isinstance_x_int_str (8, 7)])
           "x" (5, 0)
           [isinstance_x_int_str (1, 7)]
           [x_equals_1 (4, 7); isinstance_x_int_str (8, 7)]
           (isinstance_x_int (3, 7)));
    [reflexivity | reflexivity | reflexivity | reflexivity | discriminate |].
  constructor; [right; reflexivity|].
  constructor; [left; reflexivity | constructor].
Defined.

(** C5 as stated fails: the disabled switch gives [None], which is not the
    empty list. *)
Lemma disabled_flow_information_is_not_empty_list :
  check_flow_information dotted disabled type_evaluator
    (if_flow (isinstance_x_int (3, 3))) "x" (Some (4, 4)) = Ok None
  /\ check_flow_information dotted disabled type_evaluator
       (if_flow (isinstance_x_int (3, 3))) "x" (Some (4, 4)) <> Ok (Some []).
Proof. split; [reflexivity | discriminate]. Qed.

Lemma check_flow_information_disabled_returns_None_witness :
  settings.dynamic_flow_information disabled = false
  /\ check_flow_information dotted disabled type_evaluator
       (scope_with [isinstance_x_int (1, 7)]) "x" (Some (4, 4)) = Ok None.
Proof.
  split; [reflexivity|].
  apply (check_flow_information_disabled_returns_None dotted disabled
           type_evaluator (scope_with [isinstance_x_int (1, 7)]) "x" (Some (4, 4))).
  reflexivity.
Defined.

Lemma no_position_only_branch_narrowing_witness :
  settings.dynamic_flow_information enabled = true
  /\ check_flow_information dotted enabled type_evaluator
       (scope_with [isinstance_x_int (1, 7)]) "x" None = Ok (Some []).
Proof.
  split; [reflexivity|].
  apply (no_position_only_branch_narrowing dotted enabled type_evaluator
           (scope_with [isinstance_x_int (1, 7)]) "x").
  reflexivity.
Defined.

(** *** Further properties of the flow checks *)

Section FlowsMore.
Variable str : CallName -> string.

(** The asserts that the loop looks at, in the order of the loop: none
    without a position, else those not after it, the latest first. *)
Definition usable_asserts (pos : option Pos) (asserts : list Statement)
    : list Statement :=
  match pos with
  | None => []
  | Some pos => reverse (List.filter (not_after pos) asserts)
  end.

(** The first non-empty guard result along a list of statements. *)
Fixpoint first_narrowing (evaluator : Evaluator) (search_name : string)
    (stmts : list Statement) : list (Value evaluator) :=
  match stmts with
  | [] => []
  | stmt :: rest =>
      if truthy (guard_types str evaluator stmt search_name)
      then guard_types str evaluator stmt search_name
      else first_narrowing evaluator search_name rest
  end.

Lemma assert_loop_usable evaluator search_name pos l :
  Forall (fun a => not_after pos a = true) l ->
  assert_loop str evaluator search_name (Some pos) l
  = Ok (first_narrowing evaluator search_name l).
Proof.
  induction 1 as [|a l Ha _ IH]; simpl; [done|].
  unfold not_after in Ha. apply negb_true_iff in Ha. rewrite Ha.
  rewrite check_isinstance_type_total. simpl.
  destruct (truthy _); done.
Qed.

Lemma assert_loop_first_narrowing evaluator search_name pos l :
  assert_loop str evaluator search_name pos (reverse l)
  = Ok (first_narrowing evaluator search_name (usable_asserts pos l)).
Proof.
  destruct pos as [pos|]; [|apply assert_loop_no_position].
  rewrite assert_loop_filter, filter_reverse. simpl.
  apply assert_loop_usable, Forall_reverse, Forall_forall.
  intros a Ha. apply list_elem_of_In, filter_In in Ha as [_ Ha]. done.
Qed.

Lemma first_narrowing_truthy evaluator search_name l :
  first_narrowing evaluator search_name l <> [] ->
  exists stmt, stmt ∈ l
    /\ first_narrowing evaluator search_name l
       = guard_types str evaluator stmt search_name.
Proof.
  induction l as [|a l IH]; simpl; [done|].
  destruct (truthy (guard_types str evaluator a search_name)) eqn:E.
  - intros _. exists a. split; [left | done].
  - intros H. destruct (IH H) as (stmt & Hin & Heq). exists stmt.
    split; [by right | done].
Qed.

(** X2: when the calls of the evaluator return: with the switch on,
    [check_flow_information] returns a list, never [None], whatever the
    flow, and the checks of the guard raise nothing of their own.  The
    asserts come first: the result is the first non-empty guard result
    among the usable asserts of a scope, the latest assert first; only
    when there is none, the condition of a single-condition [if]/[while]
    flow is tried; every other flow gives the empty list. *)
Theorem check_flow_information_asserts_then_branch (cfg : settings.t)
    (evaluator : Evaluator) (flow : Flow) (search_name : string)
    (pos : option Pos) :
  settings.dynamic_flow_information cfg = true ->
  check_flow_information str cfg evaluator flow search_name pos
  = Ok (Some
      (if is_scope flow
          && truthy (first_narrowing evaluator search_name
                       (usable_asserts pos (asserts flow)))
       then first_narrowing evaluator search_name
              (usable_asserts pos (asserts flow))
       else if is_flow flow && bool_decide (command flow ∈ ["if"; "while"])
            then match inputs flow with
                 | [cond] => guard_types str evaluator cond search_name
                 | _ => []
                 end
            else [])).
Proof.
  intros Hon. unfold check_flow_information. rewrite Hon. simpl.
  destruct (is_scope flow); simpl.
  - rewrite assert_loop_first_narrowing. simpl.
    destruct (first_narrowing evaluator search_name
                (usable_asserts pos (asserts flow))) as [|v vs] eqn:E; simpl.
    + rewrite andb_true_r. destruct (is_flow flow); simpl; [|done].
      case_bool_decide; simpl; [|done].
      destruct (inputs flow) as [|cond [|c2 l]]; simpl; try done.
      by rewrite check_isinstance_type_total.
    + by rewrite andb_false_r.
  - rewrite andb_true_r. destruct (is_flow flow); simpl; [|done].
    case_bool_decide; simpl; [|done].
    destruct (inputs flow) as [|cond [|c2 l]]; simpl; try done.
    by rewrite check_isinstance_type_total.
Qed.

(** X3: a guard narrows only the variable that it names: one statement
    cannot give a non-empty guard result for two different names. *)
Theorem guard_names_one_variable (evaluator : Evaluator) (stmt : Statement)
    (name1 name2 : string) :
  guard_types str evaluator stmt name1 <> [] ->
  guard_types str evaluator stmt name2 <> [] ->
  name1 = name2.
Proof.
  unfold guard_types. intros H1 H2.
  destruct (type_guard_outcome str stmt name1) as [(c1 & E1 & G1) | [E1 _]];
    [|by rewrite E1 in H1].
  destruct (type_guard_outcome str stmt name2) as [(c2 & E2 & G2) | [E2 _]];
    [|by rewrite E2 in H2].
  inv G1. inv G2. done.
Qed.

End FlowsMore.

(** A [while] flow that is also a scope with asserts of its own. *)
Definition while_with_asserts (cond : Statement) (asserts : list Statement)
    : Flow := {|
  is_scope := true; asserts := asserts;
  is_flow := true; command := "while"; inputs := [cond];
|}.

Example assert_wins_over_condition :
  check_flow_information dotted enabled type_evaluator
    (while_with_asserts (isinstance_x_int (1, 6)) [isinstance_x_int_str (2, 11)])
    "x" (Some (3, 4))
  = Ok (Some [Instance "int"; Instance "str"]).
Proof. reflexivity. Qed.

Example condition_when_assert_is_later :
  check_flow_information dotted enabled type_evaluator
    (while_with_asserts (isinstance_x_int (1, 6)) [isinstance_x_int_str (5, 11)])
    "x" (Some (3, 4))
  = Ok (Some [Instance "int"]).
Proof. reflexivity. Qed.

Lemma check_flow_information_asserts_then_branch_witness :
  settings.dynamic_flow_information enabled = true
  /\ check_flow_information dotted enabled type_evaluator
       (while_with_asserts (isinstance_x_int (1, 6)) [isinstance_x_int_str (2, 11)])
       "x" (Some (3, 4))
     = Ok (Some [Instance "int"; Instance "str"]).
Proof.
  split; [reflexivity|].
  rewrite (check_flow_information_asserts_then_branch dotted enabled
             type_evaluator
             (while_with_asserts (isinstance_x_int (1, 6))
                [isinstance_x_int_str (2, 11)])
             "x" (Some (3, 4)) eq_refl).
  reflexivity.
Defined.

Lemma guard_names_one_variable_witness :
  guard_types dotted type_evaluator (isinstance_x_int (1, 6)) "x" <> []
  /\ "x" = "x".
Proof.
  assert (guard_types dotted type_evaluator (isinstance_x_int (1, 6)) "x" <> [])
    as H by discriminate.
  split; [exact H|].
  exact (guard_names_one_variable dotted type_evaluator
           (isinstance_x_int (1, 6)) "x" "x" H H).
Defined.

End Narrowing.

(** ** Module discovery: [get_directory_modules_for_name] *)

Module Discovery.
Import Py.

(** A parsed module: the object (its identity) and its [path]. *)
Record SourceModule := {
  mod_id : nat;
  path : option string;
}.

#[global] Instance SourceModule_eq_dec : EqDecision SourceModule.
Proof. solve_decision. Defined.

(** What [open(path)], [f.read()] and [source_to_unicode] give for a path:
    an [IOError], a decoding error (no [IOError]), or the text. *)
Inductive ReadResult :=
  | Unreadable
  | Undecodable
  | Text (source : string).

(** The world around one call: the parser cache, the file system, the
    loader and [os.path].  [listdir d] is [None] when [os.listdir(d)]
    raises (no such directory, no permission): an [OSError]. *)
Record Env := {
  parser_cache : gmap string SourceModule;
  read_file : string -> ReadResult;
  listdir : string -> option (list string);
  load_module : string -> string -> SourceModule;
  dirname : string -> string;
  sep : string;
}.

(** The iteration orders of Python's sets in one interpreter run: of a set
    of module objects (hashed by identity) and of a set of strings. *)
Record Run := {
  iter_modules : list SourceModule -> list SourceModule;
  iter_paths : gset string -> list string;
}.

Definition valid_run (r : Run) : Prop :=
  (forall l, iter_modules r l ≡ₚ l)
  /\ (forall X, iter_paths r X ≡ₚ elements X).

(** [name in source] *)
Fixpoint contains (name source : string) : bool :=
  if String.prefix name source then true
  else match source with
       | EmptyString => false
       | String _ rest => contains name rest
       end.

(** [s.endswith(suffix)] *)
Fixpoint endswith (s suffix : string) : bool :=
  if String.eqb s suffix then true
  else match s with
       | EmptyString => false
       | String _ rest => endswith rest suffix
       end.

(** The order of [sorted] on strings. *)
Definition str_le (a b : string) : Prop := String.leb a b = true.

#[global] Instance str_le_dec : RelDecision str_le.
Proof. intros a b. unfold str_le. solve_decision. Defined.

Definition sorted (l : list string) : list string := merge_sort str_le l.

(** Where a yielded module comes from: a seed, the parser cache, or
    [imports.load_module] called on the text read from a path. *)
Inductive Found :=
  | Seed (m : SourceModule)
  | Cached (p : string) (m : SourceModule)
  | Loaded (p : string) (source : string) (m : SourceModule).

Definition module_of (f : Found) : SourceModule :=
  match f with Seed m | Cached _ m | Loaded _ _ m => m end.

(** A generator run to its end: the values yielded, closed by the normal
    end or by the exception that escapes. *)
Inductive Gen (A : Type) :=
  | Stop
  | Yield (a : A) (rest : Gen A)
  | Throw (e : Exn).
Arguments Stop {A}.
Arguments Yield {A} a rest.
Arguments Throw {A} e.

Fixpoint yielded {A} (g : Gen A) : list A :=
  match g with
  | Stop | Throw _ => []
  | Yield a rest => a :: yielded rest
  end.

Fixpoint escapes {A} (g : Gen A) : option Exn :=
  match g with
  | Stop => None
  | Throw e => Some e
  | Yield _ rest => escapes rest
  end.

Fixpoint yield_all {A} (l : list A) (rest : Gen A) : Gen A :=
  match l with
  | [] => rest
  | a :: l' => Yield a (yield_all l' rest)
  end.

Section Discover.
Variables (cfg : settings.t) (env : Env).

(** [check_fs]: [None] when the name is not in the text. *)
Definition check_fs (name path : string) : Res (option Found) :=
  match read_file env path with
  | Unreadable => Raise IOError
  | Undecodable => Raise UnicodeDecodeError
  | Text source =>
      if contains name source
      then Ok (Some (Loaded path source (load_module env path source)))
      else Ok None
  end.

(** [check_python_file]: the cache first ([KeyError] on a miss), then the
    file system, where only [IOError] is caught. *)
Definition check_python_file (name path : string) : Res (option Found) :=
  match parser_cache env !! path with
  | Some m => Ok (Some (Cached path m))
  | None =>
      match check_fs name path with
      | Raise IOError => Ok None
      | r => r
      end
  end.

(** The loop [for p in sorted(paths)] with [mods] the set of seeds. *)
Fixpoint candidates (name : string) (mods : list SourceModule)
    (paths : list string) : Gen Found :=
  match paths with
  | [] => Stop
  | p :: rest =>
      match check_python_file name p with
      | Raise e => Throw e
      | Ok None => candidates name mods rest
      | Ok (Some c) =>
          if bool_decide (module_of c ∈ mods)
          then candidates name mods rest
          else Yield c (candidates name mods rest)
      end
  end.

(** [m.path is None or m.path.endswith('.py')] *)
Definition is_python (m : SourceModule) : bool :=
  match path m with None => true | Some p => endswith p ".py" end.

(** The entries that the loop over [os.listdir(d)] adds for the seed path
    [p]; [None] when the directory cannot be listed. *)
Definition siblings (mod_paths : gset (option string)) (p : string)
    : option (list string) :=
  let d := dirname env p in
  entries ← listdir env d;
  Some (map (fun entry => (d +:+ sep env +:+ entry))
          (List.filter
             (fun entry => bool_decide (Some entry ∉ mod_paths)
                           && endswith entry ".py")
             entries)).

(** The set [paths]: the configured extra modules and the siblings of every
    seed that has a path; [None] when [os.listdir] raises for the directory
    of a seed (the call is outside every [try]). *)
Definition candidate_paths (mods : list SourceModule) : option (gset string) :=
  let mod_paths : gset (option string) := list_to_set (map path mods) in
  found ← mapM (fun p => match p with
                         | Some p => siblings mod_paths p
                         | None => Some []
                         end)
               (elements mod_paths);
  Some (list_to_set (settings.additional_dynamic_modules cfg)
        ∪ list_to_set (List.concat found)).

(** The second half of the generator, after the seeds: the paths are
    collected first, then walked in sorted order. *)
Definition other_modules (r : Run) (name : string) (mods : list SourceModule)
    : Gen Found :=
  if settings.dynamic_params_for_other_modules cfg
  then match candidate_paths mods with
       | Some paths => candidates name mods (sorted (iter_paths r paths))
       | None => Throw OSError
       end
  else Stop.

(** The set [mods] of the seeds that are python modules. *)
Definition python_seeds (mods : list SourceModule) : list SourceModule :=
  remove_dups (List.filter is_python mods).

Definition get_directory_modules_for_name (r : Run) (mods : list SourceModule)
    (name : string) : Gen Found :=
  let mods := iter_modules r (python_seeds mods) in
  yield_all (map Seed mods) (other_modules r name mods).

End Discover.

(** A project directory [/proj] with [a.py] (the seed), [b.py], [c.py] and
    a text file; the loader numbers the modules it creates by the length of
    their text. *)
Definition m_a : SourceModule := {| mod_id := 1; path := Some "/proj/a.py" |}.
Definition m_b : SourceModule := {| mod_id := 2; path := Some "/proj/b.py" |}.
Definition m_builtin : SourceModule := {| mod_id := 3; path := None |}.

Definition proj_listdir (d : string) : option (list string) :=
  Some ["c.py"; "notes.txt"; "b.py"; "a.py"].

Definition proj_load (p source : string) : SourceModule :=
  {| mod_id := 10 + String.length source; path := Some p |}.

Definition proj_env (cache : gmap string SourceModule)
    (b_py : ReadResult) : Env := {|
  parser_cache := cache;
  read_file p :=
    if String.eqb p "/proj/a.py" then Text "def foo(x): pass"
    else if String.eqb p "/proj/b.py" then b_py
    else if String.eqb p "/proj/c.py" then Text "foo(1)"
    else Unreadable;
  listdir := proj_listdir;
  load_module := proj_load;
  dirname _ := "/proj";
  sep := "/";
|}.

Definition a_cached : gmap string SourceModule := {[ "/proj/a.py" := m_a ]}.

Definition run_forward : Run :=
  {| iter_modules l := l; iter_paths X := elements X |}.
Definition run_backward : Run :=
  {| iter_modules l := reverse l; iter_paths X := reverse (elements X) |}.

Definition all_modules : settings.t := {|
  settings.dynamic_params := true;
  settings.dynamic_params_for_other_modules := true;
  settings.additional_dynamic_modules := [];
  settings.dynamic_flow_information := true;
|}.

Lemma append_nil (b : string) : "" +:+ b = b.
Proof. reflexivity. Qed.

Lemma append_cons (c : ascii) (a b : string) :
  String c a +:+ b = String c (a +:+ b).
Proof. reflexivity. Qed.

Lemma prefix_spec (name source : string) :
  String.prefix name source = true <-> exists b, source = name +:+ b.
Proof.
  revert source. induction name as [|c name IH]; intros source; simpl.
  - split; [intros _; exists source; reflexivity | by destruct source].
  - destruct source as [|c' source]; simpl.
    + split; [discriminate | intros [b Hb]; discriminate Hb].
    + destruct (Ascii.ascii_dec c c') as [->|Hne].
      * rewrite IH. split; intros [b Hb]; exists b;
          rewrite append_cons in *; congruence.
      * split; [discriminate | intros [b Hb]; rewrite append_cons in Hb; congruence].
Qed.

Lemma contains_unfold (name source : string) :
  contains name source
  = if String.prefix name source then true
    else match source with
         | EmptyString => false
         | String _ rest => contains name rest
         end.
Proof. by destruct source. Qed.

(** [contains] is the substring test. *)
Lemma contains_spec (name source : string) :
  contains name source = true <-> exists a b, source = a +:+ name +:+ b.
Proof.
  induction source as [|c source IH]; rewrite contains_unfold.
  - destruct (String.prefix name "") eqn:E.
    + apply prefix_spec in E as [b Hb]. split; [|done]. intros _. by exists "", b.
    + split; [done|]. intros (a & b & Hab).
      destruct a; [|discriminate Hab]. rewrite append_nil in Hab.
      assert (String.prefix name "" = true) as Hp
        by (apply prefix_spec; eauto). congruence.
  - destruct (String.prefix name (String c source)) eqn:E.
    + apply prefix_spec in E as [b Hb]. split; [|done]. intros _. by exists "", b.
    + rewrite IH. split.
      * intros (a & b & ->). by exists (String c a), b.
      * intros (a & b & Hab). destruct a as [|c' a].
        -- rewrite append_nil in Hab.
           assert (String.prefix name (String c source) = true) as Hp
             by (apply prefix_spec; eauto). congruence.
        -- rewrite append_cons in Hab. injection Hab as -> ->. eauto.
Qed.

Lemma string_leb_trans (s1 s2 s3 : string) :
  String.leb s1 s2 = true -> String.leb s2 s3 = true -> String.leb s1 s3 = true.
Proof.
  unfold String.leb. revert s2 s3.
  induction s1 as [|a s1 IH]; intros [|b s2] [|c s3]; simpl; try done.
  unfold Ascii.compare.
  destruct (N.compare_spec (Ascii.N_of_ascii a) (Ascii.N_of_ascii b)) as [E1|E1|E1];
    destruct (N.compare_spec (Ascii.N_of_ascii b) (Ascii.N_of_ascii c)) as [E2|E2|E2];
    destruct (N.compare_spec (Ascii.N_of_ascii a) (Ascii.N_of_ascii c)) as [E3|E3|E3];
    try done; try lia.
  apply IH.
Qed.

#[global] Instance str_le_trans : Transitive str_le.
Proof. intros a b c. apply string_leb_trans. Qed.

#[global] Instance str_le_total : Total str_le.
Proof. intros a b. apply String.leb_total. Qed.

#[global] Instance str_le_antisym : AntiSymm (=) str_le.
Proof. intros a b. apply String.leb_antisym. Qed.

(** [sorted] gives a sorted list that depends on the elements only. *)
Lemma sorted_sorted l : StronglySorted str_le (sorted l).
Proof. apply StronglySorted_merge_sort; apply _. Qed.





Lemma yielded_yield_all {A} (l : list A) g : yielded (yield_all l g) = l ++ yielded g.
Proof. induction l as [|a l IH]; simpl; [done | by rewrite IH]. Qed.

Lemma escapes_yield_all {A} (l : list A) g : escapes (yield_all l g) = escapes g.
Proof. induction l as [|a l IH]; simpl; done. Qed.

Lemma check_python_file_origin env name p f :
  check_python_file env name p = Ok (Some f) ->
  (exists m, f = Cached p m /\ parser_cache env !! p = Some m)
  \/ (exists source, f = Loaded p source (load_module env p source)
        /\ parser_cache env !! p = None
        /\ read_file env p = Text source
        /\ contains name source = true).
Proof.
  unfold check_python_file, check_fs.
  destruct (parser_cache env !! p) as [m|] eqn:Ec.
  - intros [= <-]. left. eauto.
  - destruct (read_file env p) as [| |source] eqn:Er; try done.
    destruct (contains name source) eqn:En; [|done].
    intros [= <-]. right. eauto 10.
Qed.

Lemma candidates_origin env name mods paths f :
  f ∈ yielded (candidates env name mods paths) ->
  exists p, p ∈ paths /\ check_python_file env name p = Ok (Some f).
Proof.
  induction paths as [|p paths IH]; simpl; [intros H; inv H|].
  destruct (check_python_file env name p) as [[c|]|e] eqn:E.
  - case_bool_decide.
    + intros H'. destruct (IH H') as (q & Hq & Hf). exists q. split; [by right|done].
    + simpl. intros H'. inv H'.
      * exists p. split; [left | done].
      * destruct IH as (q & Hq & Hf); [done|]. exists q. split; [by right|done].
  - intros H'. destruct (IH H') as (q & Hq & Hf). exists q. split; [by right|done].
  - simpl. intros H'. inv H'.
Qed.

Lemma candidates_no_escape env name mods paths :
  (forall p, read_file env p <> Undecodable) ->
  escapes (candidates env name mods paths) = None.
Proof.
  intros Hd. induction paths as [|p paths IH]; simpl; [done|].
  destruct (check_python_file env name p) as [[c|]|e] eqn:E.
  - case_bool_decide; simpl; done.
  - done.
  - exfalso. unfold check_python_file, check_fs in E.
    destruct (parser_cache env !! p); [done|].
    specialize (Hd p). destruct (read_file env p) as [| |source]; try done.
    destruct (contains name source); done.
Qed.

Lemma candidates_yield_cached env name mods paths p m :
  p ∈ paths -> parser_cache env !! p = Some m -> m ∉ mods ->
  escapes (candidates env name mods paths) = None ->
  Cached p m ∈ yielded (candidates env name mods paths).
Proof.
  intros Hp Hc Hm. induction paths as [|q paths IH]; [inv Hp|]. simpl.
  destruct (check_python_file env name q) as [[c|]|e] eqn:E; [| |done].
  - assert (p = q -> c = Cached p m) as Hpq.
    { intros ->. unfold check_python_file in E. rewrite Hc in E. congruence. }
    case_bool_decide as Hin.
    + intros He. inv Hp; [|by apply IH].
      rewrite (Hpq eq_refl) in Hin. done.
    + simpl. intros He. inv Hp; [rewrite (Hpq eq_refl); left|].
      right. by apply IH.
  - intros He. inv Hp; [|by apply IH].
    unfold check_python_file in E. rewrite Hc in E. done.
Qed.






(** C7 as amended: a candidate that is not in the parser cache and whose
    text does not contain the name is neither parsed nor yielded; a module
    loaded by discovery comes from a cache miss followed by a successful
    substring check on the text read.  A candidate found in the parser
    cache is not read: it is taken from the cache whatever its text, and it
    is yielded unless the cached module is one of the seed modules (or an
    exception ends the sequence). *)
Theorem discovery_filter_for_uncached (cfg : settings.t) (env : Env) (r : Run)
    (mods : list SourceModule) (name : string) :
  valid_run r ->
  (forall p source,
     parser_cache env !! p = None -> read_file env p = Text source ->
     contains name source = false ->
     check_python_file env name p = Ok None)
  /\ (forall f, f ∈ yielded (get_directory_modules_for_name cfg env r mods name) ->
        match f with
        | Seed m => m ∈ mods
        | Cached p m => parser_cache env !! p = Some m
        | Loaded p source m =>
            parser_cache env !! p = None
            /\ read_file env p = Text source
            /\ (exists a b, source = a +:+ name +:+ b)
            /\ m = load_module env p source
        end)
  /\ (forall paths p m,
        settings.dynamic_params_for_other_modules cfg = true ->
        candidate_paths cfg env (iter_modules r (python_seeds mods)) = Some paths ->
        p ∈ paths -> parser_cache env !! p = Some m ->
        ~ (m ∈ mods /\ is_python m = true) ->
        escapes (get_directory_modules_for_name cfg env r mods name) = None ->
        check_python_file env name p = Ok (Some (Cached p m))
        /\ Cached p m
           ∈ yielded (get_directory_modules_for_name cfg env r mods name)).
Proof.
  intros [Hm Hp].
  assert (forall m, m ∈ iter_modules r (python_seeds mods)
                    <-> m ∈ mods /\ is_python m = true) as Hseeds.
  { intros m. rewrite Hm. unfold python_seeds.
    rewrite elem_of_remove_dups, list_elem_of_In, filter_In, <- list_elem_of_In.
    done. }
  split; [|split].
  - intros p source Hc Hr Hn. unfold check_python_file, check_fs.
    by rewrite Hc, Hr, Hn.
  - intros f. unfold get_directory_modules_for_name.
    rewrite yielded_yield_all, elem_of_app. intros [Hf | Hf].
    + apply list_elem_of_In, in_map_iff in Hf as (m & <- & Hin).
      apply list_elem_of_In, Hseeds in Hin as [Hin _]. done.
    + unfold other_modules in Hf.
      destruct (settings.dynamic_params_for_other_modules cfg);
        [|simpl in Hf; inv Hf].
      destruct (candidate_paths cfg env (iter_modules r (python_seeds mods)))
        as [paths|]; [|simpl in Hf; inv Hf].
      apply candidates_origin in Hf as (p & _ & Hf).
      apply check_python_file_origin in Hf
        as [(m & -> & Hc) | (source & -> & Hc & Hr & Hn)]; [done|].
      repeat split; try done. by apply contains_spec.
  - intros paths p m Hon Hpaths Hin Hc Hnot. unfold get_directory_modules_for_name.
    rewrite escapes_yield_all, yielded_yield_all. unfold other_modules.
    rewrite Hon, Hpaths. intros He. split.
    + unfold check_python_file. by rewrite Hc.
    + apply elem_of_app. right. apply candidates_yield_cached; try done.
      * unfold sorted. rewrite merge_sort_Permutation, Hp. by apply elem_of_elements.
      * by rewrite Hseeds.
Qed.



Lemma run_forward_valid : valid_run run_forward.
Proof. split; intros; simpl; done. Qed.

Lemma run_backward_valid : valid_run run_backward.
Proof. split; intros; simpl; apply reverse_Permutation. Qed.

(** C7 as stated fails: [b.py] does not contain the name [foo], but it is
    in the parser cache, and the cached module is yielded. *)
Lemma cached_sibling_without_name_is_yielded :
  read_file (proj_env (<["/proj/b.py" := m_b]> a_cached) (Text "import os"))
    "/proj/b.py" = Text "import os"
  /\ contains "foo" "import os" = false
  /\ Cached "/proj/b.py" m_b
     ∈ yielded (get_directory_modules_for_name all_modules
                  (proj_env (<["/proj/b.py" := m_b]> a_cached) (Text "import os"))
                  run_forward [m_a] "foo").
Proof.
  split; [reflexivity|]. split; [reflexivity|].
  vm_compute. right. left.
Qed.

Lemma discovery_filter_for_uncached_witness :
  valid_run run_forward
  /\ check_python_file (proj_env a_cached (Text "import os")) "foo" "/proj/b.py"
     = Ok None.
Proof.
  split; [apply run_forward_valid|].
  apply (discovery_filter_for_uncached all_modules
           (proj_env a_cached (Text "import os")) run_forward [m_a] "foo"
           run_forward_valid) with (source := "import os"); reflexivity.
Defined.





(** *** Further properties of the discovery *)

(** The path that a yielded module was looked up under; none for a seed. *)
Definition candidate_path (f : Found) : option string :=
  match f with
  | Seed _ => None
  | Cached p _ | Loaded p _ _ => Some p
  end.

(** Where a candidate path comes from: the configured extra modules, or an
    entry ending in [.py] of the directory of a seed. *)
Definition path_origin (cfg : settings.t) (env : Env)
    (mods : list SourceModule) (p : string) : Prop :=
  p ∈ settings.additional_dynamic_modules cfg
  \/ exists m seed_path entry,
       m ∈ mods /\ path m = Some seed_path
       /\ (exists entries, listdir env (dirname env seed_path) = Some entries
                           /\ entry ∈ entries)
       /\ endswith entry ".py" = true
       /\ p = dirname env seed_path +:+ sep env +:+ entry.

Lemma check_python_file_path env name p f :
  check_python_file env name p = Ok (Some f) -> candidate_path f = Some p.
Proof.
  intros H. apply check_python_file_origin in H
    as [(m & -> & _) | (source & -> & _)]; done.
Qed.

Lemma yielded_candidates_sublist env name mods paths :
  omap candidate_path (yielded (candidates env name mods paths))
  `sublist_of` paths.
Proof.
  induction paths as [|p paths IH]; simpl; [constructor|].
  destruct (check_python_file env name p) as [[c|]|e] eqn:E.
  - case_bool_decide; [by constructor|].
    simpl. rewrite (check_python_file_path _ _ _ _ E). by constructor.
  - by constructor.
  - simpl. apply sublist_nil_l.
Qed.

Lemma sublist_StronglySorted {A} (R : relation A) (l1 l2 : list A) :
  l1 `sublist_of` l2 -> StronglySorted R l2 -> StronglySorted R l1.
Proof.
  induction 1 as [|x l1 l2 Hs IH|x l1 l2 Hs IH]; intros Hl2; [done| |].
  - apply StronglySorted_inv in Hl2 as [Hl2 Hx]. constructor; [by apply IH|].
    rewrite Forall_forall in Hx. apply Forall_forall. intros y Hy.
    apply Hx. by eapply elem_of_sublist.
  - apply StronglySorted_inv in Hl2 as [Hl2 _]. by apply IH.
Qed.

Lemma no_candidate_path_of_seeds (l : list SourceModule) :
  omap candidate_path (map Seed l) = [].
Proof. induction l as [|m l IH]; simpl; done. Qed.

Lemma sibling_origin cfg env mods seed_path found p m :
  m ∈ mods -> path m = Some seed_path ->
  siblings env (list_to_set (map path mods)) seed_path = Some found ->
  p ∈ found ->
  path_origin cfg env mods p.
Proof.
  intros Hm Hpath Hs Hp. unfold siblings in Hs.
  destruct (listdir env (dirname env seed_path)) as [entries|] eqn:El;
    [|done].
  injection Hs as <-.
  apply list_elem_of_In, in_map_iff in Hp as (entry & <- & He).
  apply filter_In in He as [He Hf]. apply andb_true_iff in Hf as [_ Hpy].
  right. exists m, seed_path, entry. repeat split; try done.
  exists entries. split; [done | by apply list_elem_of_In].
Qed.

Lemma candidate_paths_origin cfg env mods paths p :
  candidate_paths cfg env mods = Some paths ->
  p ∈ paths -> path_origin cfg env mods p.
Proof.
  unfold candidate_paths. intros Hpaths.
  destruct (mapM _ (elements _)) as [found|] eqn:Ef in Hpaths; [|done].
  injection Hpaths as <-.
  rewrite elem_of_union, !elem_of_list_to_set.
  intros [Hp | Hp]; [by left|].
  apply list_elem_of_In, in_concat in Hp as (l & Hl & Hp).
  apply mapM_Some in Ef.
  apply list_elem_of_In, list_elem_of_lookup in Hl as [i Hi].
  destruct (Forall2_lookup_r _ _ _ _ _ Ef Hi) as (sp & Hsp & Hf).
  apply list_elem_of_lookup_2, elem_of_elements, elem_of_list_to_set in Hsp.
  destruct sp as [seed_path|]; [|injection Hf as <-; inv Hp].
  apply list_elem_of_In, in_map_iff in Hsp as (m & Hpath & Hm).
  apply list_elem_of_In in Hp, Hm. by eapply sibling_origin.
Qed.



Section MoreDiscovery.
Variables (cfg : settings.t) (env : Env) (r : Run).
Hypothesis Hrun : valid_run r.

Lemma seeds_elem (mods : list SourceModule) (m : SourceModule) :
  m ∈ iter_modules r (python_seeds mods) <-> m ∈ mods /\ is_python m = true.
Proof.
  destruct Hrun as [Hm _]. rewrite Hm. unfold python_seeds.
  rewrite elem_of_remove_dups, list_elem_of_In, filter_In, <- list_elem_of_In.
  done.
Qed.

Lemma seeds_NoDup (mods : list SourceModule) :
  NoDup (iter_modules r (python_seeds mods)).
Proof. destruct Hrun as [Hm _]. rewrite Hm. apply NoDup_remove_dups. Qed.

Lemma sorted_paths_elem (X : gset string) (p : string) :
  p ∈ sorted (iter_paths r X) <-> p ∈ X.
Proof.
  destruct Hrun as [_ Hp]. unfold sorted.
  rewrite merge_sort_Permutation, Hp. apply elem_of_elements.
Qed.

Lemma sorted_paths_NoDup (X : gset string) : NoDup (sorted (iter_paths r X)).
Proof.
  destruct Hrun as [_ Hp]. unfold sorted.
  rewrite merge_sort_Permutation, Hp. apply NoDup_elements.
Qed.

(** X4: the generator yields the seed modules first: every seed that is a
    python module (no path, or a path ending in [.py]) exactly once in the
    whole sequence, the other seeds dropped from the head of the sequence;
    a module found through a path is never one of the yielded seeds. *)
Theorem python_seeds_yielded_once (mods : list SourceModule) (name : string) :
  take (List.length (python_seeds mods))
    (map module_of (yielded (get_directory_modules_for_name cfg env r mods name)))
  ≡ₚ python_seeds mods
  /\ (forall m, m ∈ mods -> is_python m = true ->
        count_occ SourceModule_eq_dec
          (map module_of
             (yielded (get_directory_modules_for_name cfg env r mods name))) m
        = 1)
  /\ (forall f, f ∈ yielded (get_directory_modules_for_name cfg env r mods name) ->
        candidate_path f <> None ->
        ~ (module_of f ∈ mods /\ is_python (module_of f) = true)).
Proof.
  unfold get_directory_modules_for_name.
  set (seeds := iter_modules r (python_seeds mods)).
  assert (seeds ≡ₚ python_seeds mods) as Hperm by (destruct Hrun as [Hm _]; apply Hm).
  assert (forall f, f ∈ yielded (other_modules cfg env r name seeds) ->
            module_of f ∉ seeds) as Hother.
  { intros f. unfold other_modules.
    destruct (settings.dynamic_params_for_other_modules cfg); [|intros H; inv H].
    destruct (candidate_paths cfg env seeds) as [found|]; [|intros H; inv H].
    generalize (sorted (iter_paths r found)).
    intros paths. induction paths as [|p paths IH]; simpl; [intros H; inv H|].
    destruct (check_python_file env name p) as [[c|]|e]; [|done|intros H; inv H].
    case_bool_decide as Hc; [done|]. simpl. intros H. inv H; [done | by apply IH]. }
  rewrite yielded_yield_all, map_app, map_map. simpl. rewrite map_id.
  split; [|split].
  - rewrite <- (Permutation_length Hperm), take_app_length. done.
  - intros m Hm Hpy. rewrite count_occ_app.
    assert (m ∈ seeds) as Hin by (apply seeds_elem; done).
    rewrite (proj1 (NoDup_count_occ' SourceModule_eq_dec seeds));
      [|apply NoDup_ListNoDup, seeds_NoDup | by apply list_elem_of_In].
    rewrite (proj1 (count_occ_not_In SourceModule_eq_dec _ m)); [done|].
    intros Hm'. apply in_map_iff in Hm' as (f & <- & Hf).
    apply list_elem_of_In in Hf. by apply (Hother f Hf).
  - intros f Hf Hpath Hseed. apply elem_of_app in Hf as [Hf | Hf].
    + apply list_elem_of_In, in_map_iff in Hf as (m & <- & _). done.
    + apply (Hother f Hf). by apply seeds_elem.
Qed.

(** X5: every module that is found through a path was looked up under one
    of the configured extra modules or under an entry ending in [.py] of
    the directory of a seed module: no other file is read or parsed. *)
Theorem candidate_paths_come_from_seed_directories (mods : list SourceModule)
    (name : string) (f : Found) (p : string) :
  f ∈ yielded (get_directory_modules_for_name cfg env r mods name) ->
  candidate_path f = Some p ->
  path_origin cfg env mods p.
Proof.
  unfold get_directory_modules_for_name. rewrite yielded_yield_all, elem_of_app.
  intros [Hf | Hf] Hp.
  { apply list_elem_of_In, in_map_iff in Hf as (m & <- & _). done. }
  unfold other_modules in Hf.
  destruct (settings.dynamic_params_for_other_modules cfg); [|inv Hf].
  destruct (candidate_paths cfg env (iter_modules r (python_seeds mods)))
    as [paths|] eqn:Hpaths; [|inv Hf].
  assert (p ∈ omap candidate_path
            (yielded (candidates env name (iter_modules r (python_seeds mods))
               (sorted (iter_paths r paths)))))
    as Hin by (apply list_elem_of_omap; eauto).
  eapply elem_of_sublist in Hin; [|apply yielded_candidates_sublist].
  apply sorted_paths_elem in Hin.
  apply (candidate_paths_origin _ _ _ _ _ Hpaths) in Hin.
  destruct Hin as [Hin | (m & sp & entry & Hm & Hrest)]; [by left|].
  right. exists m, sp, entry. split; [|done].
  apply seeds_elem in Hm as [Hm _]. done.
Qed.

(** X6: the modules found through paths are yielded in the lexicographic
    order of their paths, and no path is looked up twice. *)
Theorem candidates_yielded_in_path_order (mods : list SourceModule)
    (name : string) :
  StronglySorted str_le
    (omap candidate_path
       (yielded (get_directory_modules_for_name cfg env r mods name)))
  /\ NoDup (omap candidate_path
              (yielded (get_directory_modules_for_name cfg env r mods name))).
Proof.
  unfold get_directory_modules_for_name.
  rewrite yielded_yield_all, omap_app, no_candidate_path_of_seeds. simpl.
  unfold other_modules.
  destruct (settings.dynamic_params_for_other_modules cfg);
    [|simpl; split; constructor].
  destruct (candidate_paths cfg env (iter_modules r (python_seeds mods)))
    as [paths|]; [|simpl; split; constructor].
  split.
  - eapply sublist_StronglySorted;
      [apply yielded_candidates_sublist | apply sorted_sorted].
  - eapply sublist_NoDup;
      [apply sorted_paths_NoDup | apply yielded_candidates_sublist].
Qed.


End MoreDiscovery.

(** With [dynamic_params_for_other_modules] off, the generator yields
    the seeds that are python modules and stops: the parser cache and the
    file system are not consulted (the result is the same in any
    environment) and no exception can escape. *)
Theorem discovery_of_seeds_only (cfg : settings.t) (env env' : Env) (r : Run)
    (mods : list SourceModule) (name : string) :
  settings.dynamic_params_for_other_modules cfg = false ->
  get_directory_modules_for_name cfg env r mods name
  = yield_all (map Seed (iter_modules r (python_seeds mods))) Stop
  /\ get_directory_modules_for_name cfg env r mods name
     = get_directory_modules_for_name cfg env' r mods name
  /\ escapes (get_directory_modules_for_name cfg env r mods name) = None.
Proof.
  intros Hoff. unfold get_directory_modules_for_name, other_modules.
  rewrite Hoff. split; [done|]. split; [done|]. by rewrite escapes_yield_all.
Qed.

Definition seeds_only : settings.t := {|
  settings.dynamic_params := true;
  settings.dynamic_params_for_other_modules := false;
  settings.additional_dynamic_modules := ["/proj/c.py"];
  settings.dynamic_flow_information := true;
|}.

Definition m_text : SourceModule := {| mod_id := 4; path := Some "/proj/notes.txt" |}.

Example discovery_drops_other_seeds :
  get_directory_modules_for_name all_modules (proj_env a_cached Unreadable)
    run_forward [m_text; m_a; m_builtin; m_a] "foo"
  = Yield (Seed m_builtin)
      (Yield (Seed m_a)
         (Yield (Loaded "/proj/c.py" "foo(1)" (proj_load "/proj/c.py" "foo(1)"))
            Stop)).
Proof. vm_compute. reflexivity. Qed.

Lemma candidate_paths_come_from_seed_directories_witness :
  valid_run run_forward
  /\ path_origin all_modules (proj_env a_cached Unreadable) [m_a] "/proj/c.py".
Proof.
  split; [apply run_forward_valid|].
  apply (candidate_paths_come_from_seed_directories all_modules
           (proj_env a_cached Unreadable) run_forward run_forward_valid
           [m_a] "foo"
           (Loaded "/proj/c.py" "foo(1)" (proj_load "/proj/c.py" "foo(1)")));
    [|reflexivity].
  vm_compute. right. left.
Defined.

Lemma python_seeds_yielded_once_witness :
  valid_run run_backward
  /\ count_occ SourceModule_eq_dec
       (map module_of
          (yielded (get_directory_modules_for_name all_modules
                      (proj_env a_cached Unreadable) run_backward
                      [m_text; m_a; m_builtin; m_a] "foo"))) m_a
     = 1.
Proof.
  split; [apply run_backward_valid|].
  apply (python_seeds_yielded_once all_modules (proj_env a_cached Unreadable)
           run_backward run_backward_valid [m_text; m_a; m_builtin; m_a] "foo");
    [|reflexivity].
  right. left.
Defined.

Lemma candidates_yielded_in_path_order_witness :
  valid_run run_backward
  /\ NoDup (omap candidate_path
              (yielded (get_directory_modules_for_name all_modules
                          (proj_env (<["/proj/b.py" := m_b]> a_cached) Unreadable)
                          run_backward [m_a] "foo"))).
Proof.
  split; [apply run_backward_valid|].
  apply (candidates_yielded_in_path_order all_modules
           (proj_env (<["/proj/b.py" := m_b]> a_cached) Unreadable)
           run_backward run_backward_valid [m_a] "foo").
Defined.

(** The same project when [/proj] cannot be listed. *)
Definition unlisted_env : Env :=
  {| parser_cache := a_cached;
     read_file := read_file (proj_env a_cached Unreadable);
     listdir _ := None;
     load_module := proj_load;
     dirname _ := "/proj";
     sep := "/" |}.

Example discovery_stops_when_listing_fails :
  get_directory_modules_for_name all_modules unlisted_env run_forward [m_a] "foo"
  = Yield (Seed m_a) (Throw OSError).
Proof. vm_compute. reflexivity. Qed.


Lemma discovery_of_seeds_only_witness :
  settings.dynamic_params_for_other_modules seeds_only = false
  /\ get_directory_modules_for_name seeds_only (proj_env a_cached Undecodable)
       run_forward [m_a] "foo"
     = get_directory_modules_for_name seeds_only (proj_env ∅ Unreadable)
         run_forward [m_a] "foo".
Proof.
  split; [reflexivity|].
  apply (discovery_of_seeds_only seeds_only (proj_env a_cached Undecodable)
           (proj_env ∅ Unreadable) run_forward [m_a] "foo").
  reflexivity.
Defined.

Lemma endswith_unfold (s suffix : string) :
  endswith s suffix
  = if String.eqb s suffix then true
    else match s with
         | EmptyString => false
         | String _ rest => endswith rest suffix
         end.
Proof. by destruct s. Qed.

(** [endswith] is the suffix test. *)
Lemma endswith_spec (s suffix : string) :
  endswith s suffix = true <-> exists a, s = a +:+ suffix.
Proof.
  induction s as [|c s IH]; rewrite endswith_unfold.
  - destruct (String.eqb_spec "" suffix) as [<-|Hne].
    + split; [intros _; by exists "" | done].
    + split; [done|]. intros [a Ha]. destruct a; [|discriminate Ha].
      rewrite append_nil in Ha. done.
  - destruct (String.eqb_spec (String c s) suffix) as [<-|Hne].
    + split; [intros _; by exists "" | done].
    + rewrite IH. split.
      * intros [a ->]. by exists (String c a).
      * intros [a Ha]. destruct a as [|c' a].
        -- rewrite append_nil in Ha. done.
        -- rewrite append_cons in Ha. injection Ha as -> ->. by exists a.
Qed.

End Discovery.

(** ** Dynamic parameter search: [search_params] *)

Module Inference.
Import Syntax Py Scanner Discovery.

(** An item of a flattened call path: a name part (a string), or the node
    itself where the link has no name parts. *)
Inductive PathItem :=
  | Part (text : string)
  | Node (e : Element).

(** [item == value] for a string [value]. *)
Definition item_is (value : string) (item : PathItem) : bool :=
  match item with
  | Part text => String.eqb text value
  | Node _ => false
  end.

(** [lst.index(value)]: the first index, [ValueError] when absent. *)
Fixpoint list_index (lst : list PathItem) (value : string) : Res nat :=
  match lst with
  | [] => Raise ValueError
  | item :: rest =>
      if item_is value item then Ok 0
      else i ← list_index rest value; Ok (S i)
  end.

(** [len(lst) - lst[-1::-1].index(value) - 1] *)
Definition listRightIndex (lst : list PathItem) (value : string) : Res nat :=
  i ← list_index (reverse lst) value;
  Ok (List.length lst - i - 1).

(** The split of a call path in [get_posibilities], with the test of the
    [continue] statement:
    [not last and not call_path.index(func_name) != i]. *)
Record Split := {
  first : list PathItem;
  last : list PathItem;
  skipped : bool;
}.

Definition split_call_path (call_path : list PathItem) (func_name : string)
    : Res Split :=
  i ← listRightIndex call_path func_name;
  let first := take i call_path in
  let last := drop (i + 1) call_path in
  skip ← (if negb (Narrowing.truthy last)
          then j ← list_index call_path func_name;
               Ok (negb (negb (j =? i)%nat))
          else Ok false);
  Ok {| first := first; last := last; skipped := skip |}.

(** The skip test as the specification words it: no suffix, and the match
    is not at the split index (the name also occurs earlier). *)
Definition skipped_as_specified (call_path : list PathItem) (func_name : string)
    : Res bool :=
  i ← listRightIndex call_path func_name;
  if negb (Narrowing.truthy (drop (i + 1) call_path))
  then j ← list_index call_path func_name;
       Ok (negb (j =? i)%nat)
  else Ok false.

(** A parameter object recorded by a listener: [str(p)] and [p.parent]. *)
Record Param := {
  param_str : string;
  param_parent : Statement;
}.

(** The mutable state that a search touches: the listener set of the
    function ([func.listeners], listener objects by identity) and the
    [param_possibilities] list of every [ParamListener] object. *)
Record State := {
  listeners : gset nat;
  param_possibilities : gmap nat (list (list Param));
}.

(** A computation of the evaluator: it returns or raises, and leaves a
    state in both cases. *)
Definition M (A : Type) : Type := State -> Res A * State.

#[global] Instance M_ret : MRet M := fun A a st => (Ok a, st).
#[global] Instance M_bind : MBind M := fun A B f m st =>
  match m st with
  | (Ok a, st') => f a st'
  | (Raise e, st') => (Raise e, st')
  end.

Definition lift {A} (r : Res A) : M A := fun st => (r, st).

(** A [for] loop whose body only acts on the state. *)
Fixpoint for_each {A} (l : list A) (body : A -> M unit) : M unit :=
  match l with
  | [] => mret tt
  | a :: rest => body a;; for_each rest body
  end.

(** [ParamListener()]: a new object, with an empty list. *)
Definition ParamListener : M nat := fun st =>
  let l := fresh (listeners st ∪ dom (param_possibilities st)) in
  (Ok l, {| listeners := listeners st;
            param_possibilities := <[l := []]> (param_possibilities st) |}).

(** [ParamListener.execute]: [self.param_possibilities.append(params)] *)
Definition execute (self : nat) (params : list Param) : M unit := fun st =>
  (Ok tt, {| listeners := listeners st;
             param_possibilities :=
               <[self := (param_possibilities st !!! self) ++ [params]]>
                 (param_possibilities st) |}).

(** [func.listeners.add(listener)] *)
Definition listeners_add (listener : nat) : M unit := fun st =>
  (Ok tt, {| listeners := {[listener]} ∪ listeners st;
             param_possibilities := param_possibilities st |}).

(** [func.listeners.remove(listener)]: [KeyError] when absent. *)
Definition listeners_remove (listener : nat) : M unit := fun st =>
  if bool_decide (listener ∈ listeners st)
  then (Ok tt, {| listeners := listeners st ∖ {[listener]};
                  param_possibilities := param_possibilities st |})
  else (Raise KeyError, st).

(** [listener.param_possibilities] *)
Definition read_possibilities (listener : nat) : M (list (list Param)) :=
  fun st => (Ok (param_possibilities st !!! listener), st).

(** A statement listed under a name in [module.used_names]: an import, or a
    statement with its [parent] scope. *)
Inductive Usage (Scope : Type) :=
  | UImport
  | UStatement (stmt : Statement) (parent : Scope).
Arguments UImport {Scope}.
Arguments UStatement {Scope} stmt parent.

(** The collaborators of [search_params]: the parser's view of modules and
    calls, and the evaluator.  [base escope] is
    [getattr(escope, 'base_func', None) or escope.base] for an [escope]
    that is an [er.Function] or [er.Class], [None] for any other. *)
Record Evaluator := {
  Scope : Type;
  EScope : Type;
  Value : Type;
  used_names : SourceModule -> gmap string (list (Usage Scope));
  generate_call_path : Call -> list PathItem;
  str : CallName -> string;
  eval_call_path : list PathItem -> Scope -> option Pos -> M (list Scope);
  find_name : Scope -> string -> option Pos -> bool -> M (list EScope);
  base : EScope -> option nat;
  follow_path : list PathItem -> list EScope -> Scope -> M unit;
  eval_statement : Statement -> M (list Value);
}.

(** The parameter handed to [search_params], by what the function reads:
    the function it belongs to (identity and name), the class around an
    [__init__] (identity and name), its module, and the expressions that
    hold its name. *)
Record ParamNode := {
  func : nat;
  func_name_str : string;
  func_parent_class : option (nat * string);
  current_module : SourceModule;
  param_assignment_details : list (list Element * string);
  param_expression_list : list Element;
}.

Section Search.
Variables (cfg : settings.t) (evaluator : Evaluator) (env : Env) (run : Run).

(** [get_posibilities] (the memoisation of this local function is keyed by
    a function object created anew on each call, and is left out).  The
    list of the listener is read when the loops are over. *)
Definition get_posibilities (listener compare : nat) (module : SourceModule)
    (func_name : string) : M (list (list Param)) :=
  match used_names evaluator module !! func_name with
  | None => mret []
  | Some possible_stmts =>
      for_each possible_stmts (fun usage =>
        match usage with
        | UImport => mret tt
        | UStatement stmt parent =>
            let calls := _scan_statement stmt func_name false in
            for_each calls (fun c =>
              let call_path := generate_call_path evaluator c in
              let pos := call_start_pos c in
              let scope := parent in
              split ← lift (split_call_path call_path func_name);
              if skipped split then mret tt
              else
                sp ← (if Narrowing.truthy (first split)
                      then scopes ← eval_call_path evaluator (first split) scope (Some pos);
                           mret (scopes, None)
                      else mret ([scope], Some pos));
                for_each sp.1 (fun scope =>
                  s ← find_name evaluator scope func_name sp.2
                        (negb (Narrowing.truthy (first split)));
                  let c := omap (base evaluator) s in
                  if bool_decide (compare ∈ c)
                  then follow_path evaluator (last split) s scope
                  else mret tt))
        end);;
      read_possibilities listener
  end.

(** The loop of [get_params_for_module] over one [params] list.  (The
    outer loop, [eval_all], walks the list of the listener as it stands
    when [get_posibilities] returns; the source walks the list object
    itself, so it would also visit what the evaluator records during the
    walk.) *)
Fixpoint eval_matching (param_name : string) (params : list Param)
    : M (list (Value evaluator)) :=
  match params with
  | [] => mret []
  | p :: rest =>
      here ← (if String.eqb (param_str p) param_name
              then eval_statement evaluator (param_parent p)
              else mret []);
      more ← eval_matching param_name rest;
      mret (here ++ more)
  end.

Fixpoint eval_all (param_name : string) (possibilities : list (list Param))
    : M (list (Value evaluator)) :=
  match possibilities with
  | [] => mret []
  | params :: rest =>
      here ← eval_matching param_name params;
      more ← eval_all param_name rest;
      mret (here ++ more)
  end.

Definition get_params_for_module (listener compare : nat)
    (func_name param_name : string) (module : SourceModule)
    : M (list (Value evaluator)) :=
  possibilities ← get_posibilities listener compare module func_name;
  eval_all param_name possibilities.

(** The loop over the generator: [break] on the first non-empty result; an
    exception of the generator is raised in the loop. *)
Fixpoint modules_loop (listener compare : nat) (func_name param_name : string)
    (g : Gen Found) : M (list (Value evaluator)) :=
  match g with
  | Stop => mret []
  | Throw e => lift (Raise e)
  | Yield f rest =>
      result ← get_params_for_module listener compare func_name param_name
                 (module_of f);
      if Narrowing.truthy result then mret result
      else modules_loop listener compare func_name param_name rest
  end.

(** The name of the parameter: the first assignment target or the
    expression list, after a leading [*] or [**]. *)
Definition get_param_name (param : ParamNode) : Res string :=
  expression_list ←
    (if Narrowing.truthy (param_assignment_details param)
     then d ← index (param_assignment_details param) 0; Ok d.1
     else Ok (param_expression_list param));
  e0 ← index expression_list 0;
  let offset := match e0 with
                | EToken t => if bool_decide (t ∈ ["*"; "**"]) then 1 else 0
                | _ => 0
                end in
  e ← index expression_list offset;
  match e with
  | ECall c => Ok (str evaluator (call_name c))
  | _ => Raise AttributeError
  end.

(** [search_params], the body under the memoising decorator. *)
Definition search_params (param : ParamNode) : M (list (Value evaluator)) :=
  if negb (settings.dynamic_params cfg) then mret []
  else
    let fc :=
      match func_parent_class param with
      | Some (cls, cls_name) =>
          if String.eqb (func_name_str param) "__init__"
          then (cls_name, cls)
          else (func_name_str param, func param)
      | None => (func_name_str param, func param)
      end in
    let func_name := fc.1 in
    let compare := fc.2 in
    param_name ← lift (get_param_name param);
    (* add the listener *)
    listener ← ParamListener;
    listeners_add listener;;
    result ← modules_loop listener compare func_name param_name
               (get_directory_modules_for_name cfg env run
                  [current_module param] func_name);
    (* cleanup: remove the listener; important: should not stick. *)
    listeners_remove listener;;
    mret result.

End Search.

Example split_call : split_call_path [Part "foo"; Node (EElement "(1)")] "foo"
  = Ok {| first := []; last := [Node (EElement "(1)")]; skipped := false |}.
Proof. reflexivity. Qed.

Example split_method :
  split_call_path [Part "obj"; Part "foo"; Node (EElement "(1)"); Part "bar"] "foo"
  = Ok {| first := [Part "obj"]; last := [Node (EElement "(1)"); Part "bar"];
          skipped := false |}.
Proof. reflexivity. Qed.

Example split_absent : split_call_path [Part "obj"] "foo" = Raise ValueError.
Proof. reflexivity. Qed.

Definition no_match (value : string) (l : list PathItem) : bool :=
  forallb (fun item => negb (item_is value item)) l.

Lemma item_is_Part value item : item_is value item = true -> item = Part value.
Proof.
  destruct item as [text|e]; simpl; [|done].
  intros H. apply String.eqb_eq in H. by subst.
Qed.

Lemma list_index_app_no_match value l1 l2 :
  no_match value l1 = true ->
  list_index (l1 ++ l2) value
  = (i ← list_index l2 value; Ok (List.length l1 + i)).
Proof.
  induction l1 as [|x l1 IH]; simpl.
  - intros _. destruct (list_index l2 value); done.
  - destruct (item_is value x); simpl; [done|]. intros H. rewrite (IH H).
    destruct (list_index l2 value); done.
Qed.

Lemma list_index_app_match value l1 l2 :
  no_match value l1 = false ->
  exists j, j < List.length l1 /\ list_index (l1 ++ l2) value = Ok j.
Proof.
  induction l1 as [|x l1 IH]; simpl; [done|].
  destruct (item_is value x); simpl.
  - intros _. exists 0. split; [lia | done].
  - intros H. destruct (IH H) as (j & Hj & ->). exists (S j). split; [lia | done].
Qed.

Lemma no_match_reverse value l : no_match value (reverse l) = no_match value l.
Proof.
  unfold no_match. induction l as [|x l IH]; simpl; [done|].
  rewrite reverse_cons, forallb_app, IH. simpl. rewrite andb_true_r. apply andb_comm.
Qed.

Lemma drop_after_item {A} (l1 l2 : list A) (x : A) :
  drop (List.length l1 + 1) (l1 ++ x :: l2) = l2.
Proof. induction l1 as [|y l1 IH]; simpl; [by rewrite drop_0 | done]. Qed.

Lemma listRightIndex_rightmost value first last :
  no_match value last = true ->
  listRightIndex (first ++ Part value :: last) value = Ok (List.length first).
Proof.
  intros H. unfold listRightIndex.
  rewrite reverse_app, reverse_cons, <- app_assoc.
  rewrite list_index_app_no_match by (by rewrite no_match_reverse).
  simpl. rewrite String.eqb_refl. simpl. f_equal.
  rewrite length_reverse, length_app. simpl. lia.
Qed.

(** C6 as amended: the call path is split at the rightmost occurrence of
    the search name into the prefix before it and the suffix after it, and
    the match is skipped exactly when there is no suffix and the name does
    not occur earlier in the path (its first occurrence is the split index:
    a bare reference that nothing is applied to); a match without suffix
    whose name also occurs earlier is processed. *)
Theorem split_call_path_rightmost (func_name : string)
    (first_part last_part : list PathItem) :
  no_match func_name last_part = true ->
  split_call_path (first_part ++ Part func_name :: last_part) func_name
  = Ok {| first := first_part; last := last_part;
          skipped := negb (Narrowing.truthy last_part)
                     && no_match func_name first_part |}
  /\ (negb (Narrowing.truthy last_part) && no_match func_name first_part = true
      <-> last_part = []
          /\ forall item, item ∈ first_part -> item_is func_name item = false).
Proof.
  intros Hlast. split.
  - unfold split_call_path. rewrite (listRightIndex_rightmost _ _ _ Hlast). simpl.
    rewrite take_app_length.
    rewrite drop_after_item.
    destruct (Narrowing.truthy last_part); simpl; [done|].
    destruct (no_match func_name first_part) eqn:Hf.
    + rewrite list_index_app_no_match by done. simpl.
      rewrite String.eqb_refl. simpl.
      rewrite Nat.add_0_r, Nat.eqb_refl. done.
    + destruct (list_index_app_match func_name first_part
                  (Part func_name :: last_part) Hf) as (j & Hj & ->).
      simpl. replace (j =? List.length first_part)%nat with false
        by (symmetry; apply Nat.eqb_neq; lia).
      done.
  - rewrite andb_true_iff, negb_true_iff, Narrowing.truthy_false.
    unfold no_match. rewrite forallb_forall.
    split; intros [H1 H2]; (split; [done|]); intros item Hi.
    + apply negb_true_iff, H2, list_elem_of_In, Hi.
    + apply negb_true_iff, H2, list_elem_of_In, Hi.
Qed.

Lemma split_call_path_rightmost_witness :
  no_match "foo" [Node (EElement "(1)")] = true
  /\ split_call_path
       ([Part "foo"; Node (EElement "()")] ++ Part "foo" :: [Node (EElement "(1)")])
       "foo"
     = Ok {| first := [Part "foo"; Node (EElement "()")];
             last := [Node (EElement "(1)")];
             skipped := false |}.
Proof.
  split; [reflexivity|].
  apply (split_call_path_rightmost "foo" [Part "foo"; Node (EElement "()")]
           [Node (EElement "(1)")]).
  reflexivity.
Defined.

(** C6 as stated fails: a path that is the bare name, the only occurrence
    and without suffix, is skipped by the code, where the specification
    says it is processed; and a path without suffix in which the name also
    occurs earlier is processed, where the specification says it is
    skipped. *)
Lemma single_occurrence_without_suffix_is_skipped :
  (skipped <$> split_call_path [Part "foo"] "foo") = Ok true
  /\ skipped_as_specified [Part "foo"] "foo" = Ok false
  /\ (skipped <$> split_call_path [Part "foo"; Part "foo"] "foo") = Ok false
  /\ skipped_as_specified [Part "foo"; Part "foo"] "foo" = Ok true.
Proof. repeat split. Qed.

(** *** The listener set across a search *)

(** A computation that leaves [func.listeners] as it found it, whether it
    returns or raises. *)
Definition keeps_listeners {A} (m : M A) : Prop :=
  forall st, listeners (m st).2 = listeners st.

Definition evaluator_keeps_listeners (evaluator : Evaluator) : Prop :=
  (forall p s pos, keeps_listeners (eval_call_path evaluator p s pos))
  /\ (forall s n pos g, keeps_listeners (find_name evaluator s n pos g))
  /\ (forall p s sc, keeps_listeners (follow_path evaluator p s sc))
  /\ (forall stmt, keeps_listeners (eval_statement evaluator stmt)).

(** An evaluator for the examples: the module holds the statement [foo(1)]
    under the name [foo]; resolving [foo] gives the function [7], or raises
    when [broken]; executing the call notifies every listener with the
    parameter [x] bound to [1]. *)
Definition one : Statement := Stmt (5, 4) [EElement "1"] [].
Definition call_foo_1 : Statement :=
  Stmt (5, 0)
    [ECall (MkCall (5, 0) (Name ["foo"]) (Some (Arr NOARRAY [] [one])) None)] [].
Definition x_bound_to_1 : Param := {| param_str := "x"; param_parent := one |}.

Definition notify_all (params : list Param) : M unit := fun st =>
  (Ok tt,
   {| listeners := listeners st;
      param_possibilities :=
        foldr (fun l pp => <[l := (pp !!! l) ++ [params]]> pp)
          (param_possibilities st) (elements (listeners st)) |}).

Definition example_evaluator (broken : bool) : Evaluator := {|
  Scope := nat;
  EScope := nat;
  Value := string;
  used_names _ := {[ "foo" := [UImport; UStatement call_foo_1 0] ]};
  generate_call_path c :=
    match call_name c with
    | Name names => map Part names
    | NotAName _ => [Node (ECall c)]
    end ++ match execution c with
           | Some a => [Node (EArray a)]
           | None => []
           end;
  str := Narrowing.dotted;
  eval_call_path _ _ _ := mret [];
  find_name _ _ _ _ := if broken then lift (Raise RuntimeError) else mret [7];
  base escope := Some escope;
  follow_path _ _ _ := notify_all [x_bound_to_1];
  eval_statement stmt :=
    mret (match expression_list stmt with
          | [EElement "1"] => ["int"]
          | _ => []
          end);
|}.

(** The parameter [x] of [def foo(x)] in the module [a.py]. *)
Definition param_x : ParamNode := {|
  func := 7;
  func_name_str := "foo";
  func_parent_class := None;
  current_module := m_a;
  param_assignment_details := [];
  param_expression_list := [ECall (MkCall (1, 8) (Name ["x"]) None None)];
|}.

Definition own_module_only : settings.t := {|
  settings.dynamic_params := true;
  settings.dynamic_params_for_other_modules := false;
  settings.additional_dynamic_modules := [];
  settings.dynamic_flow_information := true;
|}.

Definition no_listeners : State :=
  {| listeners := ∅; param_possibilities := ∅ |}.

Definition outcome {A} (x : Res A * State) : Res A * list nat :=
  (x.1, elements (listeners x.2)).

Lemma keeps_ret {A} (a : A) : keeps_listeners (mret a : M A).
Proof. intros st. done. Qed.

Lemma keeps_lift {A} (r : Res A) : keeps_listeners (lift r).
Proof. intros st. done. Qed.

Lemma keeps_bind {A B} (m : M A) (f : A -> M B) :
  keeps_listeners m -> (forall a, keeps_listeners (f a)) ->
  keeps_listeners (m ≫= f).
Proof.
  intros Hm Hf st. unfold mbind, M_bind.
  specialize (Hm st). destruct (m st) as [[a|e] st']; simpl in *.
  - by rewrite Hf.
  - done.
Qed.

Lemma keeps_for_each {A} (l : list A) (body : A -> M unit) :
  (forall a, keeps_listeners (body a)) -> keeps_listeners (for_each l body).
Proof.
  intros Hb. induction l as [|a l IH]; simpl; [apply keeps_ret|].
  apply keeps_bind; [apply Hb | intros _; apply IH].
Qed.

Lemma keeps_read_possibilities listener :
  keeps_listeners (read_possibilities listener).
Proof. intros st. done. Qed.

Section Pairing.
Variables (cfg : settings.t) (evaluator : Evaluator) (env : Env) (run : Run).
Hypothesis Hkeeps : evaluator_keeps_listeners evaluator.

Lemma keeps_get_posibilities listener compare module func_name :
  keeps_listeners (get_posibilities evaluator listener compare module func_name).
Proof.
  destruct Hkeeps as (Hpath & Hfind & Hfollow & _).
  unfold get_posibilities.
  destruct (used_names evaluator module !! func_name) as [stmts|];
    [|apply keeps_ret].
  apply keeps_bind; [|intros _; apply keeps_read_possibilities].
  apply keeps_for_each. intros [|stmt parent]; [apply keeps_ret|].
  apply keeps_for_each. intros c.
  apply keeps_bind; [apply keeps_lift|]. intros split.
  destruct (skipped split); [apply keeps_ret|].
  apply keeps_bind.
  - destruct (Narrowing.truthy (first split)); [|apply keeps_ret].
    apply keeps_bind; [apply Hpath | intros; apply keeps_ret].
  - intros sp. apply keeps_for_each. intros scope.
    apply keeps_bind; [apply Hfind|]. intros s.
    case_bool_decide; [apply Hfollow | apply keeps_ret].
Qed.

Lemma keeps_eval_matching param_name params :
  keeps_listeners (eval_matching evaluator param_name params).
Proof.
  destruct Hkeeps as (_ & _ & _ & Heval).
  induction params as [|p params IH]; simpl; [apply keeps_ret|].
  apply keeps_bind.
  - destruct (String.eqb _ _); [apply Heval | apply keeps_ret].
  - intros here. apply keeps_bind; [apply IH | intros; apply keeps_ret].
Qed.

Lemma keeps_eval_all param_name possibilities :
  keeps_listeners (eval_all evaluator param_name possibilities).
Proof.
  induction possibilities as [|params l IH]; simpl; [apply keeps_ret|].
  apply keeps_bind; [apply keeps_eval_matching|].
  intros here. apply keeps_bind; [apply IH | intros; apply keeps_ret].
Qed.

Lemma keeps_modules_loop listener compare func_name param_name g :
  keeps_listeners (modules_loop evaluator listener compare func_name param_name g).
Proof.
  induction g as [|f rest IH|e]; simpl; [apply keeps_ret| |apply keeps_lift].
  apply keeps_bind.
  - apply keeps_bind; [apply keeps_get_posibilities | intros; apply keeps_eval_all].
  - intros result. destruct (Narrowing.truthy result); [apply keeps_ret | apply IH].
Qed.

(** With an evaluator that leaves the listener set alone: when
    [search_params] returns, the set is the one before the call; when the
    loop over the modules raises, the exception leaves [search_params]
    before the cleanup, and the new listener stays in the set. *)
Lemma search_params_listener_set (param : ParamNode) (st : State) :
  match search_params cfg evaluator env run param st with
  | (Ok _, st') => listeners st' = listeners st
  | (Raise _, st') =>
      listeners st' = listeners st
      \/ exists listener,
           (listener ∉ listeners st)
           /\ listeners st' = {[listener]} ∪ listeners st
  end.
Proof.
  unfold search_params.
  destruct (negb (settings.dynamic_params cfg)); [done|].
  cbv zeta. unfold mbind at 1, M_bind at 1, lift at 1.
  destruct (get_param_name evaluator param) as [param_name|e]; [|by left].
  unfold mbind at 1, M_bind at 1, ParamListener at 1. cbv zeta.
  set (l := fresh (listeners st ∪ dom (param_possibilities st))).
  assert (l ∉ listeners st) as Hfresh.
  { pose proof (is_fresh (listeners st ∪ dom (param_possibilities st))) as Hf.
    fold l in Hf. set_solver. }
  unfold mbind at 1, M_bind at 1, listeners_add at 1.
  unfold mbind at 1, M_bind at 1.
  match goal with |- context [modules_loop ?ev ?li ?co ?fn ?pn ?g ?s] =>
    pose proof (keeps_modules_loop li co fn pn g s) as Hloop;
    destruct (modules_loop ev li co fn pn g s) as [[result|e] st1]
  end; simpl in Hloop.
  - unfold mbind at 1, M_bind at 1, listeners_remove at 1.
    rewrite Hloop. clear Hloop. simpl.
    rewrite bool_decide_true by (apply elem_of_union_l, elem_of_singleton; done).
    simpl. apply set_eq. intros x.
    rewrite elem_of_difference, elem_of_union, elem_of_singleton.
    split; [intros [[->|Hx] Hne]; done | intros Hx; split; [by right|]].
    intros ->. done.
  - right. exists l. done.
Qed.

End Pairing.

(** The pairing on a normal path: the call [foo(1)] is found, the
    parameter is inferred, and the listener is gone afterwards. *)
Example search_params_returns :
  outcome (search_params own_module_only (example_evaluator false)
             (proj_env a_cached Unreadable) run_forward param_x no_listeners)
  = (Ok ["int"], []).
Proof. vm_compute. reflexivity. Qed.

(** C1, failing path: the evaluator raises while the module is searched;
    the exception leaves [search_params] before
    [func.listeners.remove(listener)], and the listener registered for the
    search stays in the set, which differs from the (empty) set before the
    call. *)
Theorem search_params_leaks_listener_when_search_raises :
  outcome (search_params own_module_only (example_evaluator true)
             (proj_env a_cached Unreadable) run_forward param_x no_listeners)
  = (Raise RuntimeError, [0])
  /\ listeners (search_params own_module_only (example_evaluator true)
                  (proj_env a_cached Unreadable) run_forward param_x
                  no_listeners).2
     <> listeners no_listeners.
Proof.
  split; [vm_compute; reflexivity|].
  intros H. apply (f_equal elements) in H. vm_compute in H. discriminate H.
Qed.

(** *** Further properties of the call-path split *)

Lemma list_index_no_match value l :
  no_match value l = true -> list_index l value = Raise ValueError.
Proof.
  induction l as [|x l IH]; simpl; [done|].
  destruct (item_is value x); simpl; [done|]. intros H. by rewrite IH.
Qed.

(** The last occurrence, when there is one. *)
Lemma last_occurrence value l :
  no_match value l = false ->
  exists a b, l = a ++ Part value :: b /\ no_match value b = true.
Proof.
  induction l as [|x l IH]; simpl; [done|].
  destruct (no_match value l) eqn:El.
  - destruct (item_is value x) eqn:Ex; simpl; [|done]. intros _.
    apply item_is_Part in Ex as ->. by exists [], l.
  - intros _. destruct (IH eq_refl) as (a & b & -> & Hb).
    by exists (x :: a), b.
Qed.

Lemma split_call_path_at value a b :
  no_match value b = true ->
  split_call_path (a ++ Part value :: b) value
  = Ok {| first := a; last := b;
          skipped := negb (Narrowing.truthy b) && no_match value a |}.
Proof.
  intros Hb. unfold split_call_path.
  rewrite (listRightIndex_rightmost _ _ _ Hb). simpl.
  rewrite take_app_length, drop_after_item.
  destruct (Narrowing.truthy b); simpl; [done|].
  destruct (no_match value a) eqn:Ha.
  - rewrite list_index_app_no_match by done. simpl.
    rewrite String.eqb_refl. simpl. by rewrite Nat.add_0_r, Nat.eqb_refl.
  - destruct (list_index_app_match value a (Part value :: b) Ha) as (j & Hj & ->).
    simpl. replace (j =? List.length a)%nat with false
      by (symmetry; apply Nat.eqb_neq; lia).
    done.
Qed.

(** X8: [listRightIndex] raises [ValueError] exactly when the value does
    not occur in the list, and otherwise returns the index of its last
    occurrence: the item there is the value and no later item is. *)
Theorem listRightIndex_last_occurrence (lst : list PathItem) (value : string) :
  (listRightIndex lst value = Raise ValueError <-> no_match value lst = true)
  /\ (forall i, listRightIndex lst value = Ok i
        <-> exists a b, lst = a ++ Part value :: b
                        /\ List.length a = i /\ no_match value b = true).
Proof.
  destruct (no_match value lst) eqn:E.
  - assert (listRightIndex lst value = Raise ValueError) as Hr.
    { unfold listRightIndex.
      rewrite list_index_no_match by (by rewrite no_match_reverse). done. }
    split; [done|]. intros i. rewrite Hr. split; [done|].
    intros (a & b & -> & _ & Hb). unfold no_match in E.
    rewrite forallb_app in E. simpl in E. rewrite String.eqb_refl in E.
    simpl in E. by rewrite andb_false_r in E.
  - destruct (last_occurrence value lst E) as (a & b & -> & Hb).
    rewrite (listRightIndex_rightmost _ _ _ Hb). split; [done|].
    intros i. split.
    + intros [= <-]. by exists a, b.
    + intros (a' & b' & Heq & <- & Hb').
      pose proof (listRightIndex_rightmost value a b Hb) as H1.
      pose proof (listRightIndex_rightmost value a' b' Hb') as H2.
      rewrite Heq in H1. congruence.
Qed.

(** X9: the split of a call path fails, with [ValueError], exactly when the
    name does not occur in the path; when it succeeds, the prefix, the name
    and the suffix put together again are the path, and the name does not
    occur in the suffix. *)
Theorem split_call_path_reassembles (call_path : list PathItem)
    (func_name : string) :
  match split_call_path call_path func_name with
  | Ok split =>
      call_path = first split ++ Part func_name :: last split
      /\ no_match func_name (last split) = true
      /\ no_match func_name call_path = false
  | Raise e => e = ValueError /\ no_match func_name call_path = true
  end.
Proof.
  destruct (no_match func_name call_path) eqn:E.
  - unfold split_call_path, listRightIndex.
    rewrite (list_index_no_match func_name (reverse call_path))
      by (by rewrite no_match_reverse).
    done.
  - destruct (last_occurrence func_name call_path E) as (a & b & -> & Hb).
    rewrite (split_call_path_at _ _ _ Hb). done.
Qed.

Example split_of_bare_method_reference :
  split_call_path [Part "self"; Part "foo"; Part "foo"] "foo"
  = Ok {| first := [Part "self"; Part "foo"]; last := []; skipped := false |}.
Proof. reflexivity. Qed.

(** *** Further properties of the search *)

(** The name searched for and the definition compared with: the class for
    an [__init__] whose parent is a class, else the function itself. *)
Definition search_target (param : ParamNode) : string * nat :=
  match func_parent_class param with
  | Some (cls, cls_name) =>
      if String.eqb (func_name_str param) "__init__"
      then (cls_name, cls)
      else (func_name_str param, func param)
  | None => (func_name_str param, func param)
  end.

(** The expressions that hold the name of the parameter: the first
    assignment target of a parameter with a default, else the expression
    list. *)
Definition name_expressions (param : ParamNode) : list Element :=
  match param_assignment_details param with
  | d :: _ => d.1
  | [] => param_expression_list param
  end.

(** A module in which the search finds no call: the name is not in
    [used_names], or it is used by imports and by statements in which the
    scanner finds nothing. *)
Definition quiet (evaluator : Evaluator) (func_name : string)
    (module : SourceModule) : Prop :=
  match used_names evaluator module !! func_name with
  | None => True
  | Some usages =>
      Forall (fun usage =>
                match usage with
                | UImport => True
                | UStatement stmt _ => _scan_statement stmt func_name false = []
                end) usages
  end.

(** As [example_evaluator], with the call [foo(1)] in the module [b.py]
    only; [a.py] imports the name, the other modules do not use it. *)
Definition evaluator_of_b : Evaluator := {|
  Scope := nat;
  EScope := nat;
  Value := string;
  used_names m :=
    if (mod_id m =? mod_id m_b)%nat
    then {[ "foo" := [UStatement call_foo_1 0] ]}
    else if (mod_id m =? mod_id m_a)%nat then {[ "foo" := [UImport] ]}
    else ∅;
  generate_call_path := generate_call_path (example_evaluator false);
  str := Narrowing.dotted;
  eval_call_path _ _ _ := mret [];
  find_name _ _ _ _ := mret [7];
  base escope := Some escope;
  follow_path _ _ _ := notify_all [x_bound_to_1];
  eval_statement := eval_statement (example_evaluator false);
|}.

(** The starred parameter [args] of a function [foo], and a parameter
    without any expression. *)
Definition param_star_args : ParamNode := {|
  func := 7;
  func_name_str := "foo";
  func_parent_class := None;
  current_module := m_a;
  param_assignment_details := [];
  param_expression_list :=
    [EToken "*"; ECall (MkCall (1, 9) (Name ["args"]) None None)];
|}.

Definition param_empty : ParamNode := {|
  func := 7;
  func_name_str := "foo";
  func_parent_class := None;
  current_module := m_a;
  param_assignment_details := [];
  param_expression_list := [];
|}.

(** The parameter [x] of [__init__(self, x)] in the class [Foo] (identity
    [9]), and the same parameter seen as one of a function [Foo]. *)
Definition param_of_init : ParamNode := {|
  func := 8;
  func_name_str := "__init__";
  func_parent_class := Some (9, "Foo");
  current_module := m_a;
  param_assignment_details := [];
  param_expression_list := [ECall (MkCall (2, 23) (Name ["x"]) None None)];
|}.

(** The same parameter, as one of the function [f] named [name] that is
    not a method of a class. *)
Definition with_function (param : ParamNode) (f : nat) (name : string)
    : ParamNode := {|
  func := f;
  func_name_str := name;
  func_parent_class := None;
  current_module := current_module param;
  param_assignment_details := param_assignment_details param;
  param_expression_list := param_expression_list param;
|}.

Lemma for_each_nothing {A} (l : list A) (body : A -> M unit) (st : State) :
  Forall (fun a => body a st = (Ok tt, st)) l ->
  for_each l body st = (Ok tt, st).
Proof.
  induction 1 as [|a l Ha _ IH]; simpl; [done|].
  unfold mbind, M_bind. by rewrite Ha.
Qed.

Lemma get_posibilities_quiet evaluator listener compare module func_name st :
  quiet evaluator func_name module ->
  param_possibilities st !!! listener = [] ->
  get_posibilities evaluator listener compare module func_name st = (Ok [], st).
Proof.
  unfold quiet, get_posibilities. intros Hq Hl.
  destruct (used_names evaluator module !! func_name) as [usages|]; [|done].
  unfold mbind, M_bind. rewrite for_each_nothing.
  - unfold read_possibilities. by rewrite Hl.
  - eapply Forall_impl; [exact Hq|]. intros [|stmt parent]; [done|].
    simpl. by intros ->.
Qed.

Lemma get_params_for_module_quiet evaluator listener compare func_name
    param_name module st :
  quiet evaluator func_name module ->
  param_possibilities st !!! listener = [] ->
  get_params_for_module evaluator listener compare func_name param_name module st
  = (Ok [], st).
Proof.
  intros Hq Hl. unfold get_params_for_module, mbind, M_bind.
  by rewrite get_posibilities_quiet.
Qed.

Lemma modules_loop_quiet evaluator listener compare func_name param_name g st :
  (forall f, f ∈ yielded g -> quiet evaluator func_name (module_of f)) ->
  escapes g = None ->
  param_possibilities st !!! listener = [] ->
  modules_loop evaluator listener compare func_name param_name g st = (Ok [], st).
Proof.
  intros Hq He Hl. induction g as [|f rest IH|e]; simpl in *; [done| |done].
  unfold mbind, M_bind.
  rewrite get_params_for_module_quiet; [|apply Hq; left|done]. simpl.
  apply IH; [|done]. intros f' Hf'. apply Hq. by right.
Qed.

Lemma modules_loop_after_quiet evaluator listener compare func_name param_name
    fs g st :
  (forall f, f ∈ fs -> quiet evaluator func_name (module_of f)) ->
  param_possibilities st !!! listener = [] ->
  modules_loop evaluator listener compare func_name param_name (yield_all fs g) st
  = modules_loop evaluator listener compare func_name param_name g st.
Proof.
  intros Hq Hl. induction fs as [|f fs IH]; simpl; [done|].
  unfold mbind, M_bind.
  rewrite get_params_for_module_quiet; [|apply Hq; left|done]. simpl.
  apply IH. intros f' Hf'. apply Hq. by right.
Qed.

Lemma example_evaluator_keeps_listeners :
  evaluator_keeps_listeners (example_evaluator false).
Proof. repeat split. Qed.

Lemma search_params_unfold cfg evaluator env run param st :
  settings.dynamic_params cfg = true ->
  search_params cfg evaluator env run param st
  = (param_name ← lift (get_param_name evaluator param);
     listener ← ParamListener;
     listeners_add listener;;
     result ← modules_loop evaluator listener (search_target param).2
                (search_target param).1 param_name
                (get_directory_modules_for_name cfg env run
                   [current_module param] (search_target param).1);
     listeners_remove listener;;
     mret result) st.
Proof.
  intros Hon. unfold search_params, search_target. rewrite Hon. simpl.
  destruct (func_parent_class param) as [[cls cls_name]|]; [|done].
  destruct (String.eqb (func_name_str param) "__init__"); done.
Qed.

(** X10: the name of the parameter is the printed name of the call at the
    head of the name expressions, or of the one after a leading [*] or
    [**]; every other shape raises [IndexError] (nothing there) or
    [AttributeError] (no call there). *)
Theorem param_name_after_star (evaluator : Evaluator) (param : ParamNode) :
  (forall s, get_param_name evaluator param = Ok s
     <-> exists c rest,
           s = str evaluator (call_name c)
           /\ (name_expressions param = ECall c :: rest
               \/ exists t, t ∈ ["*"; "**"]
                            /\ name_expressions param = EToken t :: ECall c :: rest))
  /\ (forall e, get_param_name evaluator param = Raise e ->
        e = IndexError \/ e = AttributeError).
Proof.
  assert (get_param_name evaluator param
          = (e0 ← index (name_expressions param) 0;
             e ← index (name_expressions param)
                   (match e0 with
                    | EToken t => if bool_decide (t ∈ ["*"; "**"]) then 1 else 0
                    | _ => 0
                    end);
             match e with
             | ECall c => Ok (str evaluator (call_name c))
             | _ => Raise AttributeError
             end)) as ->.
  { unfold get_param_name, name_expressions.
    destruct (param_assignment_details param) as [|d ds]; done. }
  destruct (name_expressions param) as [|e0 l]; simpl.
  { split; [|intros e [= <-]; by left].
    intros s. split; [done|]. intros (c & rest & _ & [H | (t & _ & H)]); done. }
  destruct e0 as [a|c|t|t]; simpl.
  - split; [|intros e [= <-]; by right].
    intros s. split; [done|]. intros (c & rest & _ & [H | (t & _ & H)]); done.
  - split; [|done]. intros s. split.
    + intros [= <-]. exists c, l. split; [done | by left].
    + intros (c' & rest & -> & [H | (t & _ & H)]); by simplify_eq.
  - split; [|intros e [= <-]; by right].
    intros s. split; [done|]. intros (c & rest & _ & [H | (t' & _ & H)]); done.
  - case_bool_decide as Ht; simpl.
    + destruct l as [|e1 l]; simpl.
      { split; [|intros e [= <-]; by left].
        intros s. split; [done|].
        intros (c & rest & _ & [H | (t' & _ & H)]); done. }
      destruct e1 as [a|c|t1|t1]; simpl;
        try (split; [|intros e [= <-]; by right];
             intros s; split; [done|];
             intros (c & rest & _ & [H | (t' & _ & H)]); done).
      split; [|done]. intros s. split.
      * intros [= <-]. exists c, l. split; [done|]. right. by exists t.
      * intros (c' & rest & -> & [H | (t' & _ & H)]); by simplify_eq.
    + split; [|intros e [= <-]; by right].
      intros s. split; [done|].
      intros (c & rest & _ & [H | (t' & Ht' & H)]); by simplify_eq.
Qed.

(** A parameter whose name cannot be read makes [search_params] raise
    before a listener is created: the exception of the name lookup leaves
    the function with the state untouched. *)
Theorem malformed_parameter_raises_before_listener (cfg : settings.t)
    (evaluator : Evaluator) (env : Env) (run : Run) (param : ParamNode)
    (e : Exn) (st : State) :
  settings.dynamic_params cfg = true ->
  get_param_name evaluator param = Raise e ->
  search_params cfg evaluator env run param st = (Raise e, st).
Proof.
  intros Hon He. rewrite search_params_unfold by done.
  unfold mbind at 1, M_bind at 1, lift. by rewrite He.
Qed.

Lemma search_params_target cfg evaluator env run param param' st :
  search_target param = search_target param' ->
  current_module param = current_module param' ->
  param_assignment_details param = param_assignment_details param' ->
  param_expression_list param = param_expression_list param' ->
  search_params cfg evaluator env run param st
  = search_params cfg evaluator env run param' st.
Proof.
  intros Ht Hm Hd He.
  destruct (settings.dynamic_params cfg) eqn:Hon.
  - rewrite !search_params_unfold by done.
    unfold get_param_name. by rewrite Ht, Hm, Hd, He.
  - unfold search_params. by rewrite Hon.
Qed.

(** X11: constructor aliasing: for a parameter of an [__init__] whose
    parent is a class, the search is the search for calls of the class
    name, compared with the class: it is the search for the same parameter
    of a plain function with the name and the identity of the class.  A
    function with another name is searched under its own name, whether its
    parent is a class or not. *)
Theorem init_is_searched_by_class_name (cfg : settings.t)
    (evaluator : Evaluator) (env : Env) (run : Run) (param : ParamNode)
    (st : State) :
  (forall cls cls_name,
     func_parent_class param = Some (cls, cls_name) ->
     func_name_str param = "__init__" ->
     search_params cfg evaluator env run param st
     = search_params cfg evaluator env run (with_function param cls cls_name) st)
  /\ (func_name_str param <> "__init__" ->
      search_params cfg evaluator env run param st
      = search_params cfg evaluator env run
          (with_function param (func param) (func_name_str param)) st).
Proof.
  split.
  - intros cls cls_name Hp Hn. apply search_params_target; try done.
    unfold search_target. by rewrite Hp, Hn.
  - intros Hn. apply search_params_target; try done.
    unfold search_target. simpl.
    destruct (func_parent_class param) as [[cls cls_name]|]; [|done].
    apply String.eqb_neq in Hn. by rewrite Hn.
Qed.

(** X12: no call sites, no result: when every module of the discovery is
    quiet for the searched name (the name is absent from [used_names], or
    only imports and statements without a scanned call use it) and the
    discovery ends normally, [search_params] returns the empty list
    without consulting the evaluator, and the listener set is the one
    before the call. *)
Theorem search_without_call_sites (cfg : settings.t) (evaluator : Evaluator)
    (env : Env) (run : Run) (param : ParamNode) (param_name : string)
    (st : State) :
  settings.dynamic_params cfg = true ->
  get_param_name evaluator param = Ok param_name ->
  (forall f, f ∈ yielded (get_directory_modules_for_name cfg env run
                            [current_module param] (search_target param).1) ->
             quiet evaluator (search_target param).1 (module_of f)) ->
  escapes (get_directory_modules_for_name cfg env run
             [current_module param] (search_target param).1) = None ->
  (search_params cfg evaluator env run param st).1 = Ok []
  /\ listeners (search_params cfg evaluator env run param st).2 = listeners st.
Proof.
  intros Hon Hname Hq He.
  set (l := fresh (listeners st ∪ dom (param_possibilities st))).
  assert (l ∉ listeners st) as Hfresh.
  { pose proof (is_fresh (listeners st ∪ dom (param_possibilities st))) as Hf.
    fold l in Hf. intros Hl. apply Hf, elem_of_union. by left. }
  assert (search_params cfg evaluator env run param st
          = (Ok [], {| listeners := ({[l]} ∪ listeners st) ∖ {[l]};
                       param_possibilities :=
                         <[l := []]> (param_possibilities st) |})) as ->.
  { rewrite search_params_unfold by done.
    unfold mbind at 1, M_bind at 1, lift at 1. rewrite Hname.
    unfold mbind at 1, M_bind at 1, ParamListener at 1. cbv zeta. fold l.
    unfold mbind at 1, M_bind at 1, listeners_add at 1.
    unfold mbind at 1, M_bind at 1.
    rewrite modules_loop_quiet;
      [|done|done|simpl; apply lookup_total_insert_eq].
    unfold mbind at 1, M_bind at 1, listeners_remove at 1. simpl.
    rewrite bool_decide_true by (apply elem_of_union_l, elem_of_singleton; done).
    done. }
  simpl. split; [done|]. apply set_eq. intros x.
  rewrite elem_of_difference, elem_of_union, elem_of_singleton.
  split; [intros [[->|Hx] Hne]; done | intros Hx; split; [by right|]].
  intros ->. done.
Qed.

(** X13: backtracking: the modules are searched in the order of the
    discovery, the first module with a non-empty result decides, and what
    the discovery would yield or raise after it is never looked at; quiet
    modules before it are passed over. *)
Theorem first_module_with_result_wins (evaluator : Evaluator)
    (listener compare : nat) (func_name param_name : string)
    (before : list Found) (f : Found) (rest : Gen Found)
    (result : list (Value evaluator)) (st st' : State) :
  (forall f', f' ∈ before -> quiet evaluator func_name (module_of f')) ->
  param_possibilities st !!! listener = [] ->
  get_params_for_module evaluator listener compare func_name param_name
    (module_of f) st = (Ok result, st') ->
  result <> [] ->
  modules_loop evaluator listener compare func_name param_name
    (yield_all before (Yield f rest)) st
  = (Ok result, st').
Proof.
  intros Hq Hl Hf Hne. rewrite modules_loop_after_quiet by done.
  simpl. unfold mbind, M_bind. rewrite Hf.
  apply Narrowing.truthy_true in Hne. by rewrite Hne.
Qed.

(** X14: with an evaluator that leaves the listener set alone, every call
    of [search_params] that returns leaves [func.listeners] as it was
    before the call. *)
Theorem search_params_restores_listeners_on_return (cfg : settings.t)
    (evaluator : Evaluator) (env : Env) (run : Run) (param : ParamNode)
    (st st' : State) (result : list (Value evaluator)) :
  evaluator_keeps_listeners evaluator ->
  search_params cfg evaluator env run param st = (Ok result, st') ->
  listeners st' = listeners st.
Proof.
  intros Hk Hr.
  pose proof (search_params_listener_set cfg evaluator env run Hk param st) as H.
  by rewrite Hr in H.
Qed.

(** X15: a new [ParamListener] is an object that is not yet in the
    listener set, with an empty list; [execute] appends, so the parameter
    lists are read in the order in which they were recorded; creating the
    listener and recording do not change the listener set. *)
Theorem listener_records_in_order (params1 params2 : list Param) (st : State) :
  exists listener st',
    (listener ← ParamListener;
     execute listener params1;;
     execute listener params2;;
     possibilities ← read_possibilities listener;
     mret (listener, possibilities)) st
    = (Ok (listener, [params1; params2]), st')
    /\ (listener ∉ listeners st)
    /\ param_possibilities st !! listener = None
    /\ listeners st' = listeners st
    /\ forall other, other <> listener ->
         param_possibilities st' !! other = param_possibilities st !! other.
Proof.
  set (l := fresh (listeners st ∪ dom (param_possibilities st))).
  pose proof (is_fresh (listeners st ∪ dom (param_possibilities st))) as Hf.
  fold l in Hf. apply not_elem_of_union in Hf as [Hf1 Hf2].
  exists l. eexists. split; [|split; [|split; [|split]]].
  - unfold mbind, M_bind, ParamListener, execute, read_possibilities. cbv zeta.
    fold l. simpl. rewrite !lookup_total_insert_eq. simpl. reflexivity.
  - done.
  - by apply not_elem_of_dom.
  - done.
  - intros other Hne. simpl. by rewrite !lookup_insert_ne.
Qed.

Example search_finds_call_in_second_module :
  outcome (search_params all_modules evaluator_of_b
             (proj_env (<["/proj/b.py" := m_b]> a_cached) Unreadable)
             run_forward param_x no_listeners)
  = (Ok ["int"], []).
Proof. vm_compute. reflexivity. Qed.

Example search_params_star_args :
  get_param_name (example_evaluator false) param_star_args = Ok "args".
Proof. reflexivity. Qed.

Lemma pair_of_projections {A B} (x : A * B) (a : A) : x.1 = a -> x = (a, x.2).
Proof. destruct x; simpl; by intros ->. Qed.

Lemma malformed_parameter_raises_before_listener_witness :
  settings.dynamic_params own_module_only = true
  /\ get_param_name (example_evaluator false) param_empty = Raise IndexError
  /\ search_params own_module_only (example_evaluator false)
       (proj_env a_cached Unreadable) run_forward param_empty no_listeners
     = (Raise IndexError, no_listeners).
Proof.
  split; [reflexivity|]. split; [reflexivity|].
  apply (malformed_parameter_raises_before_listener own_module_only
           (example_evaluator false) (proj_env a_cached Unreadable) run_forward
           param_empty IndexError no_listeners); reflexivity.
Defined.

Lemma search_without_call_sites_witness :
  settings.dynamic_params own_module_only = true
  /\ (search_params own_module_only evaluator_of_b
        (proj_env a_cached Unreadable) run_forward param_x no_listeners).1
     = Ok []
  /\ listeners (search_params own_module_only evaluator_of_b
                  (proj_env a_cached Unreadable) run_forward param_x
                  no_listeners).2
     = listeners no_listeners.
Proof.
  split; [reflexivity|].
  apply (search_without_call_sites own_module_only evaluator_of_b
           (proj_env a_cached Unreadable) run_forward param_x "x" no_listeners);
    [reflexivity | reflexivity | | reflexivity].
  intros f Hf. vm_compute in Hf.
  apply list_elem_of_singleton in Hf as ->.
  unfold quiet. simpl. rewrite lookup_singleton_eq. repeat constructor.
Defined.

Lemma first_module_with_result_wins_witness :
  modules_loop evaluator_of_b 0 7 "foo" "x"
    (yield_all [Seed m_a]
       (Yield (Cached "/proj/b.py" m_b) (Throw UnicodeDecodeError)))
    {| listeners := {[0]}; param_possibilities := {[0 := []]} |}
  = (Ok ["int"],
     (get_params_for_module evaluator_of_b 0 7 "foo" "x" m_b
        {| listeners := {[0]}; param_possibilities := {[0 := []]} |}).2).
Proof.
  apply (first_module_with_result_wins evaluator_of_b 0 7 "foo" "x"
           [Seed m_a] (Cached "/proj/b.py" m_b) (Throw UnicodeDecodeError)
           ["int"]).
  - intros f Hf. apply list_elem_of_singleton in Hf as ->.
    unfold quiet. simpl. rewrite lookup_singleton_eq. repeat constructor.
  - simpl. apply lookup_total_singleton_eq.
  - apply pair_of_projections. vm_compute. reflexivity.
  - discriminate.
Defined.

Lemma search_params_restores_listeners_on_return_witness :
  evaluator_keeps_listeners (example_evaluator false)
  /\ listeners (search_params own_module_only (example_evaluator false)
                  (proj_env a_cached Unreadable) run_forward param_x
                  no_listeners).2
     = listeners no_listeners.
Proof.
  split; [apply example_evaluator_keeps_listeners|].
  apply (search_params_restores_listeners_on_return own_module_only
           (example_evaluator false) (proj_env a_cached Unreadable) run_forward
           param_x no_listeners _ ["int"] example_evaluator_keeps_listeners).
  apply pair_of_projections. vm_compute. reflexivity.
Defined.

Lemma init_is_searched_by_class_name_witness :
  search_params own_module_only (example_evaluator false)
    (proj_env a_cached Unreadable) run_forward param_of_init no_listeners
  = search_params own_module_only (example_evaluator false)
      (proj_env a_cached Unreadable) run_forward
      (with_function param_of_init 9 "Foo") no_listeners.
Proof.
  exact (proj1 (init_is_searched_by_class_name own_module_only
                  (example_evaluator false) (proj_env a_cached Unreadable)
                  run_forward param_of_init no_listeners)
           9 "Foo" eq_refl eq_refl).
Defined.

(** *** The scanner and the split together *)

(** A call that is scanned but not executed: its call path splits, and the
    split is skipped. *)
Definition unexecuted (evaluator : Evaluator) (func_name : string) (c : Call)
    : Prop :=
  exists split,
    split_call_path (generate_call_path evaluator c) func_name = Ok split
    /\ skipped split = true.

(** A module that only refers to the name: imports, and statements whose
    scanned calls are all unexecuted. *)
Definition only_references (evaluator : Evaluator) (func_name : string)
    (module : SourceModule) : Prop :=
  match used_names evaluator module !! func_name with
  | None => True
  | Some usages =>
      Forall (fun usage =>
                match usage with
                | UImport => True
                | UStatement stmt _ =>
                    Forall (unexecuted evaluator func_name)
                      (_scan_statement stmt func_name false)
                end) usages
  end.

(** The flattening of a call into its path: for every link its name parts
    (the link itself when it has none), the brackets attached to it, then
    the next link. *)
Fixpoint flatten_call (c : Call) : list PathItem :=
  match c with
  | MkCall _ n ex nx =>
      match n with
      | Name names => map Part names
      | NotAName _ => [Node (ECall c)]
      end
      ++ match ex with Some a => [Node (EArray a)] | None => [] end
      ++ match nx with Some c' => flatten_call c' | None => [] end
  end.

(** The statement [g(foo)]: the name is passed on, not called. *)
Definition pass_foo : Statement :=
  Stmt (7, 0)
    [ECall (MkCall (7, 0) (Name ["g"])
       (Some (Arr NOARRAY []
          [Stmt (7, 2) [ECall (MkCall (7, 2) (Name ["foo"]) None None)] []]))
       None)]
    [].

(** As [example_evaluator], for a module that only holds [g(foo)], with
    an evaluator that would raise if it were asked anything. *)
Definition evaluator_of_references : Evaluator := {|
  Scope := nat;
  EScope := nat;
  Value := string;
  used_names _ := {[ "foo" := [UImport; UStatement pass_foo 0] ]};
  generate_call_path := flatten_call;
  str := Narrowing.dotted;
  eval_call_path _ _ _ := lift (Raise RuntimeError);
  find_name _ _ _ _ := lift (Raise RuntimeError);
  base escope := Some escope;
  follow_path _ _ _ := lift (Raise RuntimeError);
  eval_statement _ := lift (Raise RuntimeError);
|}.

Lemma flatten_call_parts (c l : Call) (names : list string) (n : string) :
  l ∈ chain c -> call_name l = Name names -> n ∈ names ->
  Part n ∈ flatten_call c.
Proof.
  revert l. induction c as [p cn ex nx IH] using chain_ind. intros l Hl Hn Hin.
  apply Scanner.chain_inv in Hl as [-> | (c' & Hc' & Hl)]; simpl.
  - simpl in Hn. subst cn. apply elem_of_app. left.
    apply list_elem_of_In, in_map, list_elem_of_In, Hin.
  - simpl in Hc'. subst nx. rewrite !elem_of_app. right; right.
    by eapply IH.
Qed.

Lemma no_match_false value l : Part value ∈ l -> no_match value l = false.
Proof.
  intros H. unfold no_match. apply not_true_iff_false. intros Hall.
  rewrite forallb_forall in Hall. apply list_elem_of_In, Hall in H.
  simpl in H. by rewrite String.eqb_refl in H.
Qed.

(** X16: the split never fails on a scanned call: when the call path of a
    call lists the name parts of all its links, every call that the
    scanner returns for a name has a call path that splits at that name
    (no [ValueError] from [listRightIndex]). *)
Theorem scanned_calls_split (generate : Call -> list PathItem)
    (stmt : Statement) (func_name : string) (flag : bool) (c : Call) :
  (forall c l names n,
     l ∈ chain c -> call_name l = Name names -> n ∈ names ->
     Part n ∈ generate c) ->
  c ∈ _scan_statement stmt func_name flag ->
  exists split,
    split_call_path (generate c) func_name = Ok split
    /\ generate c = first split ++ Part func_name :: last split.
Proof.
  intros Hgen Hc.
  apply (proj1 (Scanner.scan_spec func_name)) in Hc as [_ (l & Hl & Hm)].
  unfold name_matches in Hm. destruct (call_name l) as [names|] eqn:En; [|done].
  apply bool_decide_eq_true in Hm.
  pose proof (no_match_false _ _ (Hgen c l names func_name Hl En Hm)) as Hno.
  destruct (last_occurrence func_name (generate c) Hno) as (a & b & Heq & Hb).
  rewrite Heq, (split_call_path_at _ _ _ Hb). eexists. split; done.
Qed.

Lemma scanned_calls_split_witness :
  exists split,
    split_call_path (flatten_call Scanner.foo_bar) "bar" = Ok split
    /\ flatten_call Scanner.foo_bar = first split ++ Part "bar" :: last split.
Proof.
  apply (scanned_calls_split flatten_call Scanner.stmt_foo_bar "bar" false
           Scanner.foo_bar flatten_call_parts).
  left.
Defined.

(** X17: references are not executed: in a module where the name is only
    imported or referred to by calls whose split is skipped, the search
    does not consult the evaluator: [get_posibilities] returns what the
    listener holds and leaves the state untouched. *)
Theorem references_are_not_executed (evaluator : Evaluator)
    (listener compare : nat) (module : SourceModule) (func_name : string)
    (st : State) :
  only_references evaluator func_name module ->
  get_posibilities evaluator listener compare module func_name st
  = (Ok (match used_names evaluator module !! func_name with
         | Some _ => param_possibilities st !!! listener
         | None => []
         end), st).
Proof.
  unfold only_references, get_posibilities. intros Hq.
  destruct (used_names evaluator module !! func_name) as [usages|]; [|done].
  unfold mbind, M_bind. rewrite for_each_nothing; [done|].
  eapply Forall_impl; [exact Hq|]. intros [|stmt parent]; [done|].
  intros Hcalls. apply for_each_nothing.
  eapply Forall_impl; [exact Hcalls|]. intros c (split & Hs & Hskip).
  unfold mbind, M_bind, lift. by rewrite Hs, Hskip.
Qed.

Lemma references_are_not_executed_witness :
  only_references evaluator_of_references "foo" m_a
  /\ get_posibilities evaluator_of_references 0 7 m_a "foo" no_listeners
     = (Ok [], no_listeners).
Proof.
  assert (only_references evaluator_of_references "foo" m_a) as H.
  { unfold only_references. simpl. rewrite lookup_singleton_eq.
    constructor; [done|]. constructor; [|constructor].
    constructor; [|constructor]. eexists. split; reflexivity. }
  split; [exact H|].
  rewrite (references_are_not_executed evaluator_of_references 0 7 m_a "foo"
             no_listeners H).
  simpl. rewrite lookup_singleton_eq. reflexivity.
Defined.

End Inference.
